(** * Publishing Control Surface: workflow machine, pending-operation
      tracker and optimistic mutation hooks.

    A shallow embedding of
      - src/types/record.ts            (statuses, actions, getNextStatus)
      - features/records/store/pendingOpsStore.ts   (the tracker)
      - features/records/hooks (useRecordMutation, useBatchMutation)
      - lib/api/mockApi.ts             (updateRecord, batchUpdate, the
        filtered and sorted list query, getStats, optimisticUpdate, rollback)
      - features/records/store (focusStore, selectionStore, uiStore)
      - the action keys of the keyboard provider and the filter dropdown

    Values the source draws from its environment (nanoid(), Date.now(),
    new Date().toISOString(), Math.random()) are explicit arguments. *)

From Stdlib Require Import Ascii String.
From stdpp Require Import gmap strings list fin_maps pretty sorting.

Local Open Scope string_scope.
Local Open Scope nat_scope.
Local Open Scope list_scope.
Local Open Scope stdpp_scope.

(** ** src/types/record.ts *)

Inductive Status := Queued | InReview | Approved | Published | Blocked.
Inductive Impact := High | Medium | Low.
Inductive Engine := ChatGPT | Gemini | Perplexity.
Inductive ActionType := review | approve | publish | block.

#[global] Instance Status_eq_dec : EqDecision Status.
Proof. solve_decision. Defined.
#[global] Instance Impact_eq_dec : EqDecision Impact.
Proof. solve_decision. Defined.
#[global] Instance Engine_eq_dec : EqDecision Engine.
Proof. solve_decision. Defined.
#[global] Instance ActionType_eq_dec : EqDecision ActionType.
Proof. solve_decision. Defined.

(** The literal a status or an action is written as in the source. *)
Definition Status_str (s : Status) : string :=
  match s with
  | Queued => "Queued" | InReview => "InReview" | Approved => "Approved"
  | Published => "Published" | Blocked => "Blocked"
  end.

Definition ActionType_str (a : ActionType) : string :=
  match a with
  | review => "review" | approve => "approve"
  | publish => "publish" | block => "block"
  end.

Module ContentRecord.
Record t := mk {
  id : string;
  prompt : string;
  engine : Engine;
  status : Status;
  impact : Impact;
  safetyFlags : list string;
  updatedAt : string;
  blockReason : option string   (* blockReason?: string *)
}.
End ContentRecord.

#[global] Instance ContentRecord_eq_dec : EqDecision ContentRecord.t.
Proof. solve_decision. Defined.

(** [from: Status | Status[]] *)
Inductive FromSpec := FromOne (s : Status) | FromMany (l : list Status).

Module StatusTransition.
Record t := mk { from : FromSpec; to : Status; action : ActionType }.
End StatusTransition.

Definition TRANSITIONS : list StatusTransition.t :=
  [ StatusTransition.mk (FromOne Queued) InReview review;
    StatusTransition.mk (FromOne InReview) Approved approve;
    StatusTransition.mk (FromOne Approved) Published publish;
    StatusTransition.mk (FromMany [Queued; InReview; Approved; Published])
                        Blocked block ].

(** The predicate handed to [TRANSITIONS.find]. *)
Definition fromMatches (t : StatusTransition.t) (currentStatus : Status) : bool :=
  match StatusTransition.from t with
  | FromMany l => bool_decide (currentStatus ∈ l)      (* t.from.includes(..) *)
  | FromOne s => bool_decide (s = currentStatus)
  end.

Definition getNextStatus (currentStatus : Status) (action : ActionType)
  : option Status :=
  StatusTransition.to <$>
    find (λ t, fromMatches t currentStatus
               && bool_decide (StatusTransition.action t = action))
         TRANSITIONS.

Definition isValidAction (currentStatus : Status) (action : ActionType) : bool :=
  bool_decide (getNextStatus currentStatus action ≠ None).

Module PendingOperation.
Record t := mk {
  id : string;
  recordId : string;
  action : ActionType;
  previousStatus : Status;
  timestamp : Z
}.
End PendingOperation.

#[global] Instance PendingOperation_eq_dec : EqDecision PendingOperation.t.
Proof. solve_decision. Defined.

(** The transition table of the specification, written out by cases. *)
Definition transition_table (s : Status) (a : ActionType) : option Status :=
  match s, a with
  | Queued, review => Some InReview
  | InReview, approve => Some Approved
  | Approved, publish => Some Published
  | (Queued | InReview | Approved | Published), block => Some Blocked
  | _, _ => None
  end.

(** ** features/records/store/pendingOpsStore.ts

    The store's [operations: Map<string, PendingOperation[]>]; every
    setter builds a new map from the old one. *)

Module Tracker.

Abbreviation Ops := (gmap string (list PendingOperation.t)).

Definition initial : Ops := ∅.

Definition hasPendingOps (recordId : string) (operations : Ops) : bool :=
  match operations !! recordId with
  | Some ops => bool_decide (0 < length ops)
  | None => false
  end.

Definition getLatestAction (recordId : string) (operations : Ops)
  : option ActionType :=
  match operations !! recordId with
  | None => None
  | Some ops =>
      if bool_decide (length ops = 0) then None
      else PendingOperation.action <$> ops !! (length ops - 1)
  end.

Definition getOperations (recordId : string) (operations : Ops)
  : list PendingOperation.t :=
  default [] (operations !! recordId).

(** [operationId] is the value of [nanoid()], [now] that of [Date.now()]. *)
Definition addOperation (recordId : string) (action : ActionType)
    (previousStatus : Status) (operationId : string) (now : Z)
    (operations : Ops) : string * Ops :=
  let operation :=
    PendingOperation.mk operationId recordId action previousStatus now in
  let existing := default [] (operations !! recordId) in
  (operationId, <[recordId := existing ++ [operation]]> operations).

Definition removeOperation (operationId recordId : string) (operations : Ops)
  : Ops :=
  let existing := default [] (operations !! recordId) in
  let filtered :=
    filter (λ op, PendingOperation.id op ≠ operationId) existing in
  if bool_decide (length filtered = 0) then delete recordId operations
  else <[recordId := filtered]> operations.

Definition clearOperations (recordId : string) (operations : Ops) : Ops :=
  delete recordId operations.

Definition getPendingCount (recordId : string) (operations : Ops) : nat :=
  match operations !! recordId with
  | Some ops => length ops
  | None => 0
  end.

(** Calls of the three setters, and the store they lead to. *)
Inductive Call :=
| CallAdd (recordId : string) (action : ActionType) (previousStatus : Status)
          (operationId : string) (now : Z)
| CallRemove (operationId recordId : string)
| CallClear (recordId : string).

Definition call (operations : Ops) (c : Call) : Ops :=
  match c with
  | CallAdd r a s oid now => (addOperation r a s oid now operations).2
  | CallRemove oid r => removeOperation oid r operations
  | CallClear r => clearOperations r operations
  end.

Definition run (cs : list Call) : Ops := foldl call initial cs.

(** The operations created for [recordId], in the order of creation. *)
Definition created (recordId : string) (cs : list Call)
  : list PendingOperation.t :=
  omap (λ c, match c with
             | CallAdd r a s oid now =>
                 if bool_decide (r = recordId)
                 then Some (PendingOperation.mk oid r a s now) else None
             | _ => None
             end) cs.

(** No key of the map holds an empty list. *)
Definition no_empty_list (operations : Ops) : Prop :=
  ∀ recordId, operations !! recordId ≠ Some [].

End Tracker.

(** ** Values thrown and shown *)

(** [new Error(message)], [new ApiError(message, code)], and the
    [TypeError] of a property read on [undefined]. *)
Inductive JsError :=
| Error (message : string)
| ApiError (message code : string)
| TypeError.

Definition error_message (e : JsError) : string :=
  match e with
  | Error m => m
  | ApiError m _ => m
  | TypeError => "TypeError"
  end.

Inductive ToastKind := ToastSuccess | ToastError | ToastWarning.

Module Toast.
Record t := mk { kind : ToastKind; title : string; description : string }.
End Toast.

(** The double-quote character of the template literals. *)
Definition dquote : string := String "034"%char EmptyString.

Module MutationParams.
Record t := mk {
  recordId : string;
  action : ActionType;
  blockReason : option string
}.
End MutationParams.

Module BatchMutationParams.
Record t := mk {
  recordIds : list string;
  action : ActionType;
  blockReason : option string
}.
End BatchMutationParams.

Module BatchResult.
Record t := mk {
  successful : list ContentRecord.t;
  failed : list (string * string)      (* { recordId, error } *)
}.
End BatchResult.

(** [{ ...r, status, updatedAt, blockReason }] *)
Definition spread_update (r : ContentRecord.t) (status : Status)
    (updatedAt : string) (blockReason : option string) : ContentRecord.t :=
  ContentRecord.mk (ContentRecord.id r) (ContentRecord.prompt r)
    (ContentRecord.engine r) status (ContentRecord.impact r)
    (ContentRecord.safetyFlags r) updatedAt blockReason.

(** [records.find((r) => r.id === recordId)] *)
Definition find_by_id (recordId : string) (records : list ContentRecord.t)
  : option ContentRecord.t :=
  find (λ r, bool_decide (ContentRecord.id r = recordId)) records.

(** [records.findIndex((r) => r.id === recordId)], [None] for -1. *)
Definition findIndex_by_id (recordId : string) (records : list ContentRecord.t)
  : option nat :=
  fst <$> list_find (λ r, ContentRecord.id r = recordId) records.

(** [RecordFilters]: every field is optional. *)
Module RecordFilters.
Record t := mk {
  status : option (list Status);
  engine : option (list Engine);
  impact : option (list Impact);
  search : option string
}.
End RecordFilters.

(** ** lib/api/mockApi.ts *)

Module MockApi.

(** What one call of [updateRecord] draws: the latency of its [delay],
    the answer of [shouldFail()] and the clock read for [updatedAt]. *)
Record Draw := mkDraw { latency : nat; fail : bool; now : string }.

Section Store.
(** [getMockRecords()], the seed of the in-memory store. *)
Variable mockRecords : list ContentRecord.t.

Definition initializeStore (recordsStore : list ContentRecord.t)
  : list ContentRecord.t :=
  if bool_decide (length recordsStore = 0) then mockRecords
  else recordsStore.

(** The part of [updateRecord] that runs once its delay is over. *)
Definition updateRecord_resume (params : MutationParams.t) (d : Draw)
    (recordsStore : list ContentRecord.t)
  : list ContentRecord.t * (JsError + ContentRecord.t) :=
  if fail d then
    (recordsStore,
     inl (ApiError "Network error: Request failed. Please try again."
                   "NETWORK_ERROR"))
  else
    match findIndex_by_id (MutationParams.recordId params) recordsStore with
    | None => (recordsStore, inl (ApiError "Record not found" "NOT_FOUND"))
    | Some recordIndex =>
        match recordsStore !! recordIndex with
        | None => (recordsStore, inl TypeError)
        | Some record =>
            match getNextStatus (ContentRecord.status record)
                                (MutationParams.action params) with
            | None =>
                (recordsStore,
                 inl (ApiError
                        ("Invalid transition: Cannot "
                         +:+ ActionType_str (MutationParams.action params)
                         +:+ " a record with status " +:+ dquote
                         +:+ Status_str (ContentRecord.status record)
                         +:+ dquote)
                        "INVALID_TRANSITION"))
            | Some nextStatus =>
                let updatedRecord :=
                  spread_update record nextStatus (now d)
                    (if bool_decide (MutationParams.action params = block)
                     then MutationParams.blockReason params
                     else ContentRecord.blockReason record) in
                (<[recordIndex := updatedRecord]> recordsStore,
                 inr updatedRecord)
            end
        end
    end.

Definition updateRecord (params : MutationParams.t) (d : Draw)
    (recordsStore : list ContentRecord.t)
  : list ContentRecord.t * (JsError + ContentRecord.t) :=
  updateRecord_resume params d (initializeStore recordsStore).

(** Timers fire by increasing delay, equal delays in the order the
    calls were made. *)
Fixpoint fire_insert (c : string * Draw) (l : list (string * Draw))
  : list (string * Draw) :=
  match l with
  | [] => [c]
  | d :: l' =>
      if bool_decide (latency c.2 ≤ latency d.2) then c :: d :: l'
      else d :: fire_insert c l'
  end.

Definition firing_order (calls : list (string * Draw))
  : list (string * Draw) :=
  foldr fire_insert [] calls.

(** The body of one [recordIds.map(async ...)] callback after its
    delay: the update, then the push into [results]. *)
Definition batch_step (params : BatchMutationParams.t)
    (acc : list ContentRecord.t * BatchResult.t) (c : string * Draw)
  : list ContentRecord.t * BatchResult.t :=
  let '(recordsStore, results) := acc in
  let p := MutationParams.mk c.1 (BatchMutationParams.action params)
             (BatchMutationParams.blockReason params) in
  match updateRecord_resume p c.2 recordsStore with
  | (recordsStore', inr record) =>
      (recordsStore',
       BatchResult.mk (BatchResult.successful results ++ [record])
                      (BatchResult.failed results))
  | (recordsStore', inl error) =>
      (recordsStore',
       BatchResult.mk (BatchResult.successful results)
                      (BatchResult.failed results
                         ++ [(c.1, error_message error)]))
  end.

(** [draws i] is what the call for [recordIds[i]] draws.  Every
    call initialises the store before it awaits its delay. *)
Definition batchUpdate (params : BatchMutationParams.t)
    (draws : nat → Draw) (recordsStore : list ContentRecord.t)
  : list ContentRecord.t * BatchResult.t :=
  let recordIds := BatchMutationParams.recordIds params in
  let store0 := initializeStore recordsStore in
  let store1 := foldl (λ s _, initializeStore s) store0 recordIds in
  let calls := imap (λ i recordId, (recordId, draws i)) recordIds in
  foldl (batch_step params) (store1, BatchResult.mk [] [])
        (firing_order calls).
End Store.

Section Reads.
Variable mockRecords : list ContentRecord.t.
(** [s.toLowerCase()] and [s.includes(t)] on JS strings. *)
Variable toLowerCase : string → string.
Variable includes : string → string → bool.
(** [new Date(s).getTime()] of the ISO strings the records carry. *)
Variable getTime : string → Z.

(** [filters?.status?.length] is truthy for a non-empty array,
    [filters?.search] for a non-empty string. *)
Definition applyFilters (records : list ContentRecord.t)
    (filters : option RecordFilters.t) : list ContentRecord.t :=
  let result := records in
  let result :=
    match filters ≫= RecordFilters.status with
    | Some l =>
        if bool_decide (length l ≠ 0)
        then filter (λ r, ContentRecord.status r ∈ l) result else result
    | None => result
    end in
  let result :=
    match filters ≫= RecordFilters.engine with
    | Some l =>
        if bool_decide (length l ≠ 0)
        then filter (λ r, ContentRecord.engine r ∈ l) result else result
    | None => result
    end in
  let result :=
    match filters ≫= RecordFilters.impact with
    | Some l =>
        if bool_decide (length l ≠ 0)
        then filter (λ r, ContentRecord.impact r ∈ l) result else result
    | None => result
    end in
  let result :=
    match filters ≫= RecordFilters.search with
    | Some q =>
        if bool_decide (q ≠ "")
        then
          let searchLower := toLowerCase q in
          filter (λ r, includes (toLowerCase (ContentRecord.prompt r))
                                searchLower = true) result
        else result
    | None => result
    end in
  result.

(** What [applyFilters] asks of a record: each filter that is set and
    not empty must accept it. *)
Definition accepts {A} `{EqDecision A} (o : option (list A)) (x : A) : bool :=
  match o with
  | Some l => bool_decide (length l = 0) || bool_decide (x ∈ l)
  | None => true
  end.

Definition passes (filters : option RecordFilters.t) (r : ContentRecord.t)
  : bool :=
  accepts (filters ≫= RecordFilters.status) (ContentRecord.status r)
  && accepts (filters ≫= RecordFilters.engine) (ContentRecord.engine r)
  && accepts (filters ≫= RecordFilters.impact) (ContentRecord.impact r)
  && match filters ≫= RecordFilters.search with
     | Some q =>
         bool_decide (q = "")
         || includes (toLowerCase (ContentRecord.prompt r)) (toLowerCase q)
     | None => true
     end.

(** [Array.prototype.sort] with the comparator
    [(a, b) => time(b) - time(a)]: the sort is stable, so [a] goes in
    front of the first [b] the comparator does not put before it. *)
Fixpoint sort_insert (a : ContentRecord.t) (l : list ContentRecord.t)
  : list ContentRecord.t :=
  match l with
  | [] => [a]
  | b :: l' =>
      if bool_decide (getTime (ContentRecord.updatedAt b)
                      - getTime (ContentRecord.updatedAt a) ≤ 0)%Z
      then a :: b :: l'
      else b :: sort_insert a l'
  end.

Definition sortRecords (records : list ContentRecord.t)
  : list ContentRecord.t :=
  foldr sort_insert [] records.

Definition getRecords (filters : option RecordFilters.t)
    (recordsStore : list ContentRecord.t)
  : list ContentRecord.t * list ContentRecord.t :=
  let recordsStore := initializeStore mockRecords recordsStore in
  (recordsStore, sortRecords (applyFilters recordsStore filters)).

Definition getRecord (id : string) (recordsStore : list ContentRecord.t)
  : list ContentRecord.t * option ContentRecord.t :=
  let recordsStore := initializeStore mockRecords recordsStore in
  (recordsStore, find_by_id id recordsStore).

(** [byStatus[r.status]++] *)
Definition bump (byStatus : Status → nat) (s : Status) : Status → nat :=
  λ s', if bool_decide (s' = s) then S (byStatus s') else byStatus s'.

(** [getStats()]: the total and the count per status. *)
Definition getStats (recordsStore : list ContentRecord.t)
  : list ContentRecord.t * (nat * (Status → nat)) :=
  let recordsStore := initializeStore mockRecords recordsStore in
  (recordsStore,
   (length recordsStore,
    foldl (λ byStatus r, bump byStatus (ContentRecord.status r))
          (λ _, 0) recordsStore)).

(** [now] is the clock read for [updatedAt].  An index [findIndex]
    returns is in range, so the read of [recordsStore[recordIndex]]
    always finds a record. *)
Definition optimisticUpdate (recordId : string) (action : ActionType)
    (blockReason : option string) (now : string)
    (recordsStore : list ContentRecord.t)
  : list ContentRecord.t * option ContentRecord.t :=
  let recordsStore := initializeStore mockRecords recordsStore in
  match findIndex_by_id recordId recordsStore with
  | None => (recordsStore, None)
  | Some recordIndex =>
      match recordsStore !! recordIndex with
      | None => (recordsStore, None)
      | Some record =>
          match getNextStatus (ContentRecord.status record) action with
          | None => (recordsStore, None)
          | Some nextStatus =>
              let updatedRecord :=
                spread_update record nextStatus now
                  (if bool_decide (action = block) then blockReason
                   else ContentRecord.blockReason record) in
              (<[recordIndex := updatedRecord]> recordsStore,
               Some updatedRecord)
          end
      end
  end.

Definition rollback (recordId : string) (previousRecord : ContentRecord.t)
    (recordsStore : list ContentRecord.t) : list ContentRecord.t :=
  let recordsStore := initializeStore mockRecords recordsStore in
  match findIndex_by_id recordId recordsStore with
  | Some recordIndex => <[recordIndex := previousRecord]> recordsStore
  | None => recordsStore
  end.
End Reads.


End MockApi.

(** ** features/records/hooks: the client side

    The query client holds one entry per list query; its data is a
    record array or [undefined].  The pending-operation store and the
    toasts shown so far complete the client state. *)

Module Client.
Record t := mk {
  queries : list (option (list ContentRecord.t));
  operations : Tracker.Ops;
  toasts : list Toast.t
}.

Definition set_queries (q : list (option (list ContentRecord.t))) (c : t) : t :=
  mk q (operations c) (toasts c).
Definition set_operations (o : Tracker.Ops) (c : t) : t :=
  mk (queries c) o (toasts c).
Definition toast (x : Toast.t) (c : t) : t :=
  mk (queries c) (operations c) (toasts c ++ [x]).
End Client.

(** [queryClient.setQueriesData(filter, updater)] with an updater that
    returns [old] when it is [undefined] and [old.map(f)] otherwise. *)
Definition setQueriesData (f : ContentRecord.t → ContentRecord.t)
    (queries : list (option (list ContentRecord.t)))
  : list (option (list ContentRecord.t)) :=
  map (option_map (map f)) queries.

(** The loop over [queryCaches] that stops at the first cache holding
    the record. *)
Fixpoint find_in_caches (recordId : string)
    (queryCaches : list (option (list ContentRecord.t)))
  : option ContentRecord.t :=
  match queryCaches with
  | [] => None
  | data :: rest =>
      match data with
      | Some d =>
          match find_by_id recordId d with
          | Some record => Some record
          | None => find_in_caches recordId rest
          end
      | None => find_in_caches recordId rest
      end
  end.

(** [a ?? b] *)
Definition nullish {A} (a b : option A) : option A :=
  match a with Some x => Some x | None => b end.

Module RecordMutation.

Module Context.
Record t := mk { previousRecord : ContentRecord.t; operationId : string }.
End Context.

(** The updater of the optimistic write. *)
Definition optimistic (variables : MutationParams.t) (nextStatus : Status)
    (nowIso : string) (r : ContentRecord.t) : ContentRecord.t :=
  if bool_decide (ContentRecord.id r = MutationParams.recordId variables)
  then spread_update r nextStatus nowIso
         (nullish (MutationParams.blockReason variables)
                  (ContentRecord.blockReason r))
  else r.

(** [operationId], [nowMs] and [nowIso] are the values of [nanoid()],
    [Date.now()] and [new Date().toISOString()].  The client state is
    returned also when the callback throws. *)
Definition onMutate (variables : MutationParams.t)
    (operationId : string) (nowMs : Z) (nowIso : string) (c : Client.t)
  : Client.t * (JsError + Context.t) :=
  match find_in_caches (MutationParams.recordId variables)
                       (Client.queries c) with
  | None => (c, inl (Error "Record not found"))
  | Some previousRecord =>
      let '(operationId, ops) :=
        Tracker.addOperation (MutationParams.recordId variables)
          (MutationParams.action variables)
          (ContentRecord.status previousRecord)
          operationId nowMs (Client.operations c) in
      let c1 := Client.set_operations ops c in
      match getNextStatus (ContentRecord.status previousRecord)
                          (MutationParams.action variables) with
      | None => (c1, inl (Error "Invalid transition"))
      | Some nextStatus =>
          (Client.set_queries
             (setQueriesData (optimistic variables nextStatus nowIso)
                             (Client.queries c1)) c1,
           inr (Context.mk previousRecord operationId))
      end
  end.

(** The updater of the rollback. *)
Definition restore (variables : MutationParams.t)
    (previousRecord : ContentRecord.t) (r : ContentRecord.t)
  : ContentRecord.t :=
  if bool_decide (ContentRecord.id r = MutationParams.recordId variables)
  then previousRecord else r.

(** [context] is [None] when [onMutate] threw.  A string is truthy
    when it is not empty. *)
Definition onError (variables : MutationParams.t)
    (context : option Context.t) (c : Client.t) : Client.t :=
  let c1 :=
    match context with
    | Some ctx =>
        Client.set_queries
          (setQueriesData (restore variables (Context.previousRecord ctx))
                          (Client.queries c)) c
    | None => c
    end in
  let c2 :=
    match context with
    | Some ctx =>
        if bool_decide (Context.operationId ctx ≠ "")
        then Client.set_operations
               (Tracker.removeOperation (Context.operationId ctx)
                  (MutationParams.recordId variables) (Client.operations c1))
               c1
        else c1
    | None => c1
    end in
  Client.toast
    (Toast.mk ToastError
       ("Failed to " +:+ ActionType_str (MutationParams.action variables))
       "The action could not be completed. Please try again.")
    c2.

Definition actionLabels (a : ActionType) : string :=
  match a with
  | review => "Started review"
  | approve => "Approved"
  | publish => "Published"
  | block => "Blocked"
  end.

Definition onSuccess (variables : MutationParams.t)
    (context : option Context.t) (c : Client.t) : Client.t :=
  let c1 :=
    match context with
    | Some ctx =>
        if bool_decide (Context.operationId ctx ≠ "")
        then Client.set_operations
               (Tracker.removeOperation (Context.operationId ctx)
                  (MutationParams.recordId variables) (Client.operations c))
               c
        else c
    | None => c
    end in
  Client.toast
    (Toast.mk ToastSuccess (actionLabels (MutationParams.action variables))
       ("Record successfully "
        +:+ ActionType_str (MutationParams.action variables) +:+ "ed."))
    c1.

(** The mutation's life cycle up to the backing call: [onMutate], and
    when it throws, [onError] with no context; [mutationFn] is then
    not called. *)
Definition begin (variables : MutationParams.t)
    (operationId : string) (nowMs : Z) (nowIso : string) (c : Client.t)
  : Client.t * (JsError + Context.t) :=
  match onMutate variables operationId nowMs nowIso c with
  | (c1, inl e) => (onError variables None c1, inl e)
  | (c1, inr ctx) => (c1, inr ctx)
  end.

(** The life cycle once the backing call has settled, run on the
    client state of that moment. *)
Definition settle (variables : MutationParams.t) (ctx : Context.t)
    (outcome : JsError + ContentRecord.t) (c : Client.t) : Client.t :=
  match outcome with
  | inr _ => onSuccess variables (Some ctx) c
  | inl _ => onError variables (Some ctx) c
  end.

(** One mutation from call to settlement with nothing in between. *)
Definition mutate (mockRecords : list ContentRecord.t)
    (variables : MutationParams.t)
    (operationId : string) (nowMs : Z) (nowIso : string) (d : MockApi.Draw)
    (c : Client.t) (recordsStore : list ContentRecord.t)
  : Client.t * list ContentRecord.t * (JsError + ContentRecord.t) :=
  match begin variables operationId nowMs nowIso c with
  | (c1, inl e) => (c1, recordsStore, inl e)
  | (c1, inr ctx) =>
      let '(recordsStore', outcome) :=
        MockApi.updateRecord mockRecords variables d recordsStore in
      (settle variables ctx outcome c1, recordsStore', outcome)
  end.

End RecordMutation.

Module BatchMutation.

(** [previousRecords] and [operationIds] are JS Maps: keyed, and
    iterated in the order of insertion. *)
Module Context.
Record t := mk {
  previousRecords : list (string * ContentRecord.t);
  operationIds : list (string * string)
}.
End Context.

(** One round of the inner loop of [onMutate]; [nanoidFor r] and
    [nowFor r] are the values of [nanoid()] and [Date.now()] drawn
    when the operation of [r] is added. *)
Definition visit (variables : BatchMutationParams.t)
    (nanoidFor : string → string) (nowFor : string → Z)
    (data : list ContentRecord.t)
    (acc : Context.t * Tracker.Ops) (recordId : string)
  : Context.t * Tracker.Ops :=
  let '(ctx, ops) := acc in
  match find_by_id recordId data with
  | Some record =>
      if bool_decide (recordId ∈ (Context.previousRecords ctx).*1) then acc
      else
        let '(opId, ops') :=
          Tracker.addOperation recordId (BatchMutationParams.action variables)
            (ContentRecord.status record)
            (nanoidFor recordId) (nowFor recordId) ops in
        (Context.mk (Context.previousRecords ctx ++ [(recordId, record)])
                    (Context.operationIds ctx ++ [(recordId, opId)]),
         ops')
  | None => acc
  end.

Definition optimistic (variables : BatchMutationParams.t) (nowIso : string)
    (r : ContentRecord.t) : ContentRecord.t :=
  if bool_decide (ContentRecord.id r ∈ BatchMutationParams.recordIds variables)
  then
    match getNextStatus (ContentRecord.status r)
                        (BatchMutationParams.action variables) with
    | Some nextStatus =>
        spread_update r nextStatus nowIso
          (nullish (BatchMutationParams.blockReason variables)
                   (ContentRecord.blockReason r))
    | None => r
    end
  else r.

Definition onMutate (variables : BatchMutationParams.t)
    (nanoidFor : string → string) (nowFor : string → Z) (nowIso : string)
    (c : Client.t) : Client.t * Context.t :=
  let '(ctx, ops) :=
    foldl (λ acc data,
             match data with
             | Some d =>
                 foldl (visit variables nanoidFor nowFor d) acc
                       (BatchMutationParams.recordIds variables)
             | None => acc
             end)
          (Context.mk [] [], Client.operations c) (Client.queries c) in
  let c1 := Client.set_operations ops c in
  (Client.set_queries
     (setQueriesData (optimistic variables nowIso) (Client.queries c1)) c1,
   ctx).

(** [for (const [recordId, opId] of context.operationIds)
      removeOperation(opId, recordId)] *)
Definition remove_all (operationIds : list (string * string))
    (ops : Tracker.Ops) : Tracker.Ops :=
  foldl (λ o p, Tracker.removeOperation p.2 p.1 o) ops operationIds.

Definition actionRequires (a : ActionType) : string :=
  match a with
  | review => "Queued"
  | approve => "InReview"
  | publish => "Approved"
  | block => "any status"
  end.

(** The toast of [onSuccess], chosen by the two counts. *)
Definition summary (variables : BatchMutationParams.t)
    (result : BatchResult.t) : option Toast.t :=
  let successCount := length (BatchResult.successful result) in
  let failCount := length (BatchResult.failed result) in
  let action := ActionType_str (BatchMutationParams.action variables) in
  if bool_decide (failCount = 0) && bool_decide (0 < successCount) then
    Some (Toast.mk ToastSuccess
            (pretty successCount +:+ " items " +:+ action +:+ "ed")
            "All actions completed successfully.")
  else if bool_decide (successCount = 0) && bool_decide (0 < failCount) then
    Some (Toast.mk ToastError
            ("Cannot " +:+ action)
            (action +:+ " requires records in " +:+ dquote
             +:+ actionRequires (BatchMutationParams.action variables)
             +:+ dquote +:+ " status."))
  else if bool_decide (0 < failCount) then
    Some (Toast.mk ToastWarning "Partially completed"
            (pretty successCount +:+ " succeeded, "
             +:+ pretty failCount +:+ " failed."))
  else None.

Definition onSuccess (result : BatchResult.t)
    (variables : BatchMutationParams.t) (context : option Context.t)
    (c : Client.t) : Client.t :=
  let c1 :=
    match context with
    | Some ctx =>
        Client.set_operations
          (remove_all (Context.operationIds ctx) (Client.operations c)) c
    | None => c
    end in
  match summary variables result with
  | Some t => Client.toast t c1
  | None => c1
  end.

(** The overall outcome a caller is shown. *)
Inductive Classification := AllSucceeded | AllFailed | Partial.

Definition classification (t : Toast.t) : Classification :=
  match Toast.kind t with
  | ToastSuccess => AllSucceeded
  | ToastError => AllFailed
  | ToastWarning => Partial
  end.

(** One batch from call to settlement with nothing in between.
    [batchUpdate] catches every error of its calls, so the mutation
    always resolves and [onSuccess] is the callback that runs. *)
Definition mutate (mockRecords : list ContentRecord.t)
    (variables : BatchMutationParams.t)
    (nanoidFor : string → string) (nowFor : string → Z) (nowIso : string)
    (draws : nat → MockApi.Draw)
    (c : Client.t) (recordsStore : list ContentRecord.t)
  : Client.t * list ContentRecord.t * BatchResult.t :=
  let '(c1, ctx) := onMutate variables nanoidFor nowFor nowIso c in
  let '(recordsStore', result) :=
    MockApi.batchUpdate mockRecords variables draws recordsStore in
  (onSuccess result variables (Some ctx) c1, recordsStore', result).

End BatchMutation.

(** ** Concrete inputs used by the examples *)

Module Sample.

Definition entity (id : string) (s : Status) : ContentRecord.t :=
  ContentRecord.mk id "Best CMS platforms comparison" ChatGPT s Medium []
                   "2024-05-01T10:00:00.000Z" None.

(** A client with one list query and nothing pending. *)
Definition client (records : list ContentRecord.t) : Client.t :=
  Client.mk [Some records] ∅ [].

Definition approveE : MutationParams.t := MutationParams.mk "E" approve None.
Definition blockE : MutationParams.t :=
  MutationParams.mk "E" block (Some "policy").
Definition publishE : MutationParams.t := MutationParams.mk "E" publish None.
Definition reviewE_with_reason : MutationParams.t :=
  MutationParams.mk "E" review (Some "x").

Definition networkError : JsError :=
  ApiError "Network error: Request failed. Please try again." "NETWORK_ERROR".

Definition ok_draw (latency : nat) : MockApi.Draw :=
  MockApi.mkDraw latency false "2024-06-01T12:00:00.000Z".

Definition two_pending : list Tracker.Call :=
  [ Tracker.CallAdd "E" approve InReview "op1" 10;
    Tracker.CallAdd "E" block Approved "op2" 20 ].

End Sample.

(** ** Paths through the workflow *)

(** The status reached by applying the actions one after the other,
    [None] as soon as one is rejected. *)
Fixpoint apply_actions (s : Status) (actions : list ActionType)
  : option Status :=
  match actions with
  | [] => Some s
  | a :: rest =>
      match getNextStatus s a with
      | Some s' => apply_actions s' rest
      | None => None
      end
  end.

(** The position of a status along the workflow. *)
Definition Status_rank (s : Status) : nat :=
  match s with
  | Queued => 0 | InReview => 1 | Approved => 2 | Published => 3
  | Blocked => 4
  end.

(** ** features/records/store/focusStore.ts

    The store as it is with the [shouldAnimateDrawer] flag.  Row
    indices and row counts are JS numbers holding integers. *)

Module FocusStore.

Record t := mk {
  focusedIndex : Z;
  focusedId : option string;
  isDrawerOpen : bool;
  drawerRecordId : option string;
  shouldAnimateDrawer : bool
}.

Definition PAGE_SIZE : Z := 20.

Definition initial : t := mk 0 None false None false.

Inductive Direction := up | down.

Definition setFocusedIndex (index : Z) (s : t) : t :=
  mk index (focusedId s) (isDrawerOpen s) (drawerRecordId s)
     (shouldAnimateDrawer s).

Definition setFocusedId (id : option string) (s : t) : t :=
  mk (focusedIndex s) id (isDrawerOpen s) (drawerRecordId s)
     (shouldAnimateDrawer s).

Definition moveFocus (direction : Direction) (totalRows : Z) (s : t) : t :=
  let newIndex :=
    match direction with
    | down => Z.min (focusedIndex s + 1) (totalRows - 1)
    | up => Z.max (focusedIndex s - 1) 0
    end in
  setFocusedIndex newIndex s.

Definition jumpToFirst (s : t) : t := setFocusedIndex 0 s.

Definition jumpToLast (totalRows : Z) (s : t) : t :=
  setFocusedIndex (Z.max 0 (totalRows - 1)) s.

Definition pageUp (_totalRows : Z) (s : t) : t :=
  setFocusedIndex (Z.max 0 (focusedIndex s - PAGE_SIZE)) s.

Definition pageDown (totalRows : Z) (s : t) : t :=
  setFocusedIndex (Z.min (totalRows - 1) (focusedIndex s + PAGE_SIZE)) s.





(** The navigation and drawer calls of the store. *)
Inductive Nav :=
| NavMove (direction : Direction)
| NavFirst | NavLast | NavPageUp | NavPageDown.

Definition nav (totalRows : Z) (n : Nav) (s : t) : t :=
  match n with
  | NavMove d => moveFocus d totalRows s
  | NavFirst => jumpToFirst s
  | NavLast => jumpToLast totalRows s
  | NavPageUp => pageUp totalRows s
  | NavPageDown => pageDown totalRows s
  end.



End FocusStore.

(** [getFocusedRecord] of the keyboard provider. *)
Definition getFocusedRecord (records : list ContentRecord.t)
    (focusedIndex : Z) : option ContentRecord.t :=
  if bool_decide (0 ≤ focusedIndex)%Z
     && bool_decide (focusedIndex < Z.of_nat (length records))%Z
  then records !! Z.to_nat focusedIndex
  else None.

(** The single-record action keys of [handleKeyDown]: the parameters
    of the [onAction] call a key leads to, if it leads to one.
    [answer] is what [window.prompt] returns for the block reason;
    [onAction] passes the parameters on to the mutation. *)
Definition keyAction (key : string) (focusedRecord : option ContentRecord.t)
    (answer : option string) : option MutationParams.t :=
  match focusedRecord with
  | None => None
  | Some r =>
      if bool_decide (key = "a") then
        if isValidAction (ContentRecord.status r) approve
        then Some (MutationParams.mk (ContentRecord.id r) approve None)
        else None
      else if bool_decide (key = "r") then
        if isValidAction (ContentRecord.status r) review
        then Some (MutationParams.mk (ContentRecord.id r) review None)
        else None
      else if bool_decide (key = "p") then
        if isValidAction (ContentRecord.status r) publish
        then Some (MutationParams.mk (ContentRecord.id r) publish None)
        else None
      else if bool_decide (key = "b") then
        if isValidAction (ContentRecord.status r) block
        then
          match answer with
          | Some reason =>
              if bool_decide (reason ≠ "")
              then Some (MutationParams.mk (ContentRecord.id r) block
                                           (Some reason))
              else None
          | None => None
          end
        else None
      else None
  end.

(** ** features/records/store/selectionStore.ts

    A JS [Set<string>] is kept as the list of its members in the order
    of insertion, which is the order [Array.from] returns. *)

Module SelectionStore.

Record t := mk {
  selectedIds : list string;
  lastSelectedId : option string
}.

(** [set.add(id)], [set.delete(id)], [new Set(ids)] *)
Definition set_add (id : string) (s : list string) : list string :=
  if bool_decide (id ∈ s) then s else s ++ [id].

Definition set_delete (id : string) (s : list string) : list string :=
  filter (λ x, x ≠ id) s.

Definition set_of (ids : list string) : list string :=
  foldl (λ s id, set_add id s) [] ids.

Definition initial : t := mk [] None.

Definition select (id : string) (st : t) : t :=
  mk (set_add id (selectedIds st)) (Some id).

Definition deselect (id : string) (st : t) : t :=
  mk (set_delete id (selectedIds st)) (lastSelectedId st).

Definition toggle (id : string) (st : t) : t :=
  mk (if bool_decide (id ∈ selectedIds st)
      then set_delete id (selectedIds st)
      else set_add id (selectedIds st))
     (Some id).

(** [orderedIds.indexOf(x)], [None] for -1. *)
Definition indexOf (x : string) (orderedIds : list string) : option nat :=
  fst <$> list_find (λ y, y = x) orderedIds.

(** [!fromId] holds for [null] and for the empty string.  The loop
    runs over indices of [orderedIds], so every [orderedIds[i]] it
    reads is a string. *)
Definition selectRange (toId : string) (orderedIds : list string) (st : t)
  : t :=
  let single := mk (set_add toId (selectedIds st)) (Some toId) in
  match lastSelectedId st with
  | None => single
  | Some fromId =>
      if bool_decide (fromId = "") then single
      else
        match indexOf fromId orderedIds, indexOf toId orderedIds with
        | Some fromIndex, Some toIndex =>
            let '(start, end_) :=
              if bool_decide (fromIndex < toIndex)
              then (fromIndex, toIndex) else (toIndex, fromIndex) in
            mk (foldl (λ s i, match orderedIds !! i with
                              | Some x => set_add x s
                              | None => s
                              end)
                      (selectedIds st) (seq start (S end_ - start)))
               (Some toId)
        | _, _ => st
        end
  end.

Definition selectAll (ids : list string) : t := mk (set_of ids) (last ids).

Definition clearSelection : t := mk [] None.

Definition isSelected (id : string) (st : t) : bool :=
  bool_decide (id ∈ selectedIds st).

Definition getSelectedCount (st : t) : nat := length (selectedIds st).

Definition getSelectedIds (st : t) : list string := selectedIds st.

(** The calls that change the store. *)
Inductive Call :=
| CallSelect (id : string)
| CallDeselect (id : string)
| CallToggle (id : string)
| CallSelectRange (toId : string) (orderedIds : list string)
| CallSelectAll (ids : list string)
| CallClear.

Definition call (st : t) (c : Call) : t :=
  match c with
  | CallSelect id => select id st
  | CallDeselect id => deselect id st
  | CallToggle id => toggle id st
  | CallSelectRange toId orderedIds => selectRange toId orderedIds st
  | CallSelectAll ids => selectAll ids
  | CallClear => clearSelection
  end.

Definition run (cs : list Call) : t := foldl call initial cs.

End SelectionStore.

(** ** features/records/store/uiStore.ts *)

Inductive SortField := SortImpact | SortUpdatedAt | SortStatus.
Inductive SortDirection := asc | desc.
Inductive Theme := dark | light.

Definition Theme_str (t : Theme) : string :=
  match t with dark => "dark" | light => "light" end.

Module UIStore.

Record t := mk {
  statusFilter : list Status;
  engineFilter : list Engine;
  impactFilter : list Impact;
  searchQuery : string;
  sortField : SortField;
  sortDirection : SortDirection;
  isFilterBarOpen : bool;
  isHelpModalOpen : bool;
  theme : Theme
}.

Definition initial : t := mk [] [] [] "" SortImpact desc false false dark.

Definition setStatusFilter (statuses : list Status) (s : t) : t :=
  mk statuses (engineFilter s) (impactFilter s) (searchQuery s)
     (sortField s) (sortDirection s) (isFilterBarOpen s) (isHelpModalOpen s)
     (theme s).

Definition setEngineFilter (engines : list Engine) (s : t) : t :=
  mk (statusFilter s) engines (impactFilter s) (searchQuery s)
     (sortField s) (sortDirection s) (isFilterBarOpen s) (isHelpModalOpen s)
     (theme s).

Definition setImpactFilter (impacts : list Impact) (s : t) : t :=
  mk (statusFilter s) (engineFilter s) impacts (searchQuery s)
     (sortField s) (sortDirection s) (isFilterBarOpen s) (isHelpModalOpen s)
     (theme s).

Definition setSearchQuery (query : string) (s : t) : t :=
  mk (statusFilter s) (engineFilter s) (impactFilter s) query
     (sortField s) (sortDirection s) (isFilterBarOpen s) (isHelpModalOpen s)
     (theme s).

Definition clearFilters (s : t) : t :=
  mk [] [] [] ""
     (sortField s) (sortDirection s) (isFilterBarOpen s) (isHelpModalOpen s)
     (theme s).

Definition hasActiveFilters (s : t) : bool :=
  bool_decide (0 < length (statusFilter s))
  || bool_decide (0 < length (engineFilter s))
  || bool_decide (0 < length (impactFilter s))
  || bool_decide (0 < String.length (searchQuery s)).

Definition set_theme (th : Theme) (s : t) : t :=
  mk (statusFilter s) (engineFilter s) (impactFilter s) (searchQuery s)
     (sortField s) (sortDirection s) (isFilterBarOpen s) (isHelpModalOpen s)
     th.

(** [classList.remove(..)] and [classList.add(..)] on the class list
    of the document element, an ordered set of tokens. *)
Definition classList_remove (tokens : list string) (cl : list string)
  : list string :=
  filter (λ c, c ∉ tokens) cl.

Definition classList_add (token : string) (cl : list string) : list string :=
  if bool_decide (token ∈ cl) then cl else cl ++ [token].

(** Both theme setters act on the store and on the document. *)
Definition toggleTheme (s : t) (cl : list string) : t * list string :=
  let newTheme := match theme s with dark => light | light => dark end in
  (set_theme newTheme s,
   classList_add (Theme_str newTheme) (classList_remove ["dark"; "light"] cl)).

Definition setTheme (th : Theme) (s : t) (cl : list string)
  : t * list string :=
  (set_theme th s,
   classList_add (Theme_str th) (classList_remove ["dark"; "light"] cl)).

End UIStore.

(** The [filters] object [useRecords] builds from the UI store. *)
Definition useRecords_filters (ui : UIStore.t) : RecordFilters.t :=
  RecordFilters.mk
    (if bool_decide (0 < length (UIStore.statusFilter ui))
     then Some (UIStore.statusFilter ui) else None)
    (if bool_decide (0 < length (UIStore.engineFilter ui))
     then Some (UIStore.engineFilter ui) else None)
    (if bool_decide (0 < length (UIStore.impactFilter ui))
     then Some (UIStore.impactFilter ui) else None)
    (if bool_decide (UIStore.searchQuery ui = "") then None
     else Some (UIStore.searchQuery ui)).

(** ** components/filters/FilterBar.tsx *)

(** [toggleOption] of a filter dropdown: the new selection handed to
    [onChange]. *)
Definition toggleOption `{EqDecision T} (option : T) (selected : list T)
  : list T :=
  if bool_decide (option ∈ selected)
  then filter (λ s, s ≠ option) selected
  else selected ++ [option].

(** * Properties *)

(** ** Workflow machine *)

Lemma getNextStatus_cases s a : getNextStatus s a = transition_table s a.
Proof. destruct s, a; reflexivity. Qed.

Lemma isValidAction_table s a :
  isValidAction s a = true ↔ is_Some (transition_table s a).
Proof.
  unfold isValidAction. rewrite bool_decide_eq_true, getNextStatus_cases.
  apply not_eq_None_Some.
Qed.

(** C2: [getNextStatus] returns the target listed in the transition
    table for every listed (state, action) pair and [None] (Rejected)
    for every other pair; the named pairs are spelled out. *)
Theorem getNextStatus_table :
  (∀ s a, getNextStatus s a = transition_table s a)
  ∧ getNextStatus Queued review = Some InReview
  ∧ getNextStatus InReview approve = Some Approved
  ∧ getNextStatus Approved publish = Some Published
  ∧ (∀ s, s ∈ [Queued; InReview; Approved; Published] →
          getNextStatus s block = Some Blocked)
  ∧ getNextStatus Blocked approve = None
  ∧ getNextStatus Queued publish = None
  ∧ getNextStatus Published review = None
  ∧ getNextStatus Blocked block = None.
Proof.
  repeat split; try reflexivity.
  - apply getNextStatus_cases.
  - intros s Hs. destruct s; try reflexivity.
    repeat (apply elem_of_cons in Hs as [Hs | Hs]; [discriminate Hs |]).
    apply elem_of_nil in Hs. contradiction.
Qed.

(** ** Pending-operation tracker *)

Section TrackerFacts.
Import Tracker.
Implicit Types (ops : Tracker.Ops) (r oid : string).

Lemma getOperations_add r r' a s oid now ops :
  getOperations r (addOperation r' a s oid now ops).2 =
  if decide (r' = r)
  then getOperations r ops ++ [PendingOperation.mk oid r' a s now]
  else getOperations r ops.
Proof.
  unfold getOperations, addOperation. simpl.
  destruct (decide (r' = r)) as [-> | Hne].
  - rewrite lookup_insert_eq. reflexivity.
  - rewrite lookup_insert_ne by done. reflexivity.
Qed.

Lemma getOperations_remove r r' oid ops :
  getOperations r (removeOperation oid r' ops) =
  if decide (r' = r)
  then filter (λ op, PendingOperation.id op ≠ oid) (getOperations r ops)
  else getOperations r ops.
Proof.
  unfold getOperations, removeOperation.
  set (filtered := filter _ (default [] (ops !! r'))).
  destruct (decide (r' = r)) as [-> | Hne]; case_bool_decide as Hlen.
  - rewrite lookup_delete_eq. simpl. symmetry.
    apply length_zero_iff_nil, Hlen.
  - rewrite lookup_insert_eq. reflexivity.
  - rewrite lookup_delete_ne by done. reflexivity.
  - rewrite lookup_insert_ne by done. reflexivity.
Qed.

Lemma getOperations_clear r r' ops :
  getOperations r (clearOperations r' ops) =
  if decide (r' = r) then [] else getOperations r ops.
Proof.
  unfold getOperations, clearOperations.
  destruct (decide (r' = r)) as [-> | Hne].
  - rewrite lookup_delete_eq. reflexivity.
  - rewrite lookup_delete_ne by done. reflexivity.
Qed.

Lemma hasPendingOps_getOperations r ops :
  hasPendingOps r ops = bool_decide (getOperations r ops ≠ []).
Proof.
  unfold hasPendingOps, getOperations.
  destruct (ops !! r) as [[| o l] |]; reflexivity.
Qed.

Lemma getPendingCount_getOperations r ops :
  getPendingCount r ops = length (getOperations r ops).
Proof.
  unfold getPendingCount, getOperations. destruct (ops !! r); reflexivity.
Qed.

Lemma getLatestAction_last r ops :
  getLatestAction r ops =
  PendingOperation.action <$> last (getOperations r ops).
Proof.
  unfold getLatestAction, getOperations.
  destruct (ops !! r) as [l |]; [| reflexivity]. simpl.
  case_bool_decide as Hlen.
  - apply length_zero_iff_nil in Hlen. subst l. reflexivity.
  - rewrite last_lookup. f_equal. f_equal. lia.
Qed.

Lemma run_snoc cs c : run (cs ++ [c]) = call (run cs) c.
Proof. unfold run. rewrite foldl_app. reflexivity. Qed.

Lemma no_empty_list_initial : no_empty_list initial.
Proof. intros r. unfold initial. rewrite lookup_empty. discriminate. Qed.

Lemma no_empty_list_call ops c : no_empty_list ops → no_empty_list (call ops c).
Proof.
  intros Hinv r. destruct c as [r' a s oid now | oid r' | r']; simpl.
  - unfold addOperation. simpl.
    destruct (decide (r' = r)) as [-> | Hne].
    + rewrite lookup_insert_eq. intros [= H].
      apply app_eq_nil in H as [_ H]. discriminate.
    + rewrite lookup_insert_ne by done. apply Hinv.
  - unfold removeOperation. case_bool_decide as Hlen.
    + destruct (decide (r' = r)) as [-> | Hne].
      * rewrite lookup_delete_eq. discriminate.
      * rewrite lookup_delete_ne by done. apply Hinv.
    + destruct (decide (r' = r)) as [-> | Hne].
      * rewrite lookup_insert_eq. intros [= H]. rewrite H in Hlen.
        apply Hlen. reflexivity.
      * rewrite lookup_insert_ne by done. apply Hinv.
  - unfold clearOperations.
    destruct (decide (r' = r)) as [-> | Hne].
    + rewrite lookup_delete_eq. discriminate.
    + rewrite lookup_delete_ne by done. apply Hinv.
Qed.

Lemma no_empty_list_run cs : no_empty_list (run cs).
Proof.
  induction cs as [| c cs IH] using rev_ind.
  - apply no_empty_list_initial.
  - rewrite run_snoc. apply no_empty_list_call, IH.
Qed.

Lemma created_snoc r cs c :
  created r (cs ++ [c]) = created r cs ++ created r [c].
Proof. unfold created. apply omap_app. Qed.

Lemma getOperations_sublist_created r cs :
  getOperations r (run cs) `sublist_of` created r cs.
Proof.
  induction cs as [| c cs IH] using rev_ind.
  - unfold run, getOperations, initial. simpl. rewrite lookup_empty.
    constructor.
  - rewrite run_snoc, created_snoc.
    destruct c as [r' a s oid now | oid r' | r']; cbn [call].
    + rewrite getOperations_add. unfold created. simpl.
      case_bool_decide as Hr; destruct (decide (r' = r)); try congruence.
      * apply sublist_app; [exact IH | reflexivity].
      * rewrite app_nil_r. exact IH.
    + rewrite getOperations_remove. unfold created at 2. simpl.
      rewrite app_nil_r.
      destruct (decide (r' = r)); [| exact IH].
      etrans; [apply sublist_filter | exact IH].
    + rewrite getOperations_clear. unfold created at 2. simpl.
      rewrite app_nil_r.
      destruct (decide (r' = r)); [apply sublist_nil_l | exact IH].
Qed.

End TrackerFacts.

Section TrackerClaims.
Import Tracker.
Implicit Types (ops : Tracker.Ops) (r oid : string).

Lemma filter_all_keep {A} (P : A → Prop) `{!∀ x, Decision (P x)} (l : list A) :
  (∀ x, x ∈ l → P x) → filter P l = l.
Proof.
  induction l as [| x l IH]; intros Hall; [reflexivity |].
  rewrite filter_cons_True by (apply Hall; left).
  f_equal. apply IH. intros y Hy. apply Hall. right. exact Hy.
Qed.

Lemma filter_all_drop {A} (P : A → Prop) `{!∀ x, Decision (P x)} (l : list A) :
  (∀ x, x ∈ l → ¬ P x) → filter P l = [].
Proof.
  induction l as [| x l IH]; intros Hall; [reflexivity |].
  rewrite filter_cons_False by (apply Hall; left).
  apply IH. intros y Hy. apply Hall. right. exact Hy.
Qed.

Lemma removeOperation_other r r' oid ops :
  r' ≠ r → removeOperation oid r ops !! r' = ops !! r'.
Proof.
  intros Hne. unfold removeOperation. case_bool_decide.
  - apply lookup_delete_ne. congruence.
  - apply lookup_insert_ne. congruence.
Qed.

Lemma removeOperation_absent r oid ops :
  no_empty_list ops →
  (∀ op, op ∈ getOperations r ops → PendingOperation.id op ≠ oid) →
  removeOperation oid r ops = ops.
Proof.
  intros Hinv Habs. unfold removeOperation.
  fold (getOperations r ops). rewrite (filter_all_keep _ _ Habs).
  unfold getOperations. specialize (Hinv r).
  destruct (ops !! r) as [[| o l] |] eqn:Hr; simpl.
  - contradiction.
  - apply insert_id, Hr.
  - apply delete_id, Hr.
Qed.

(** C7: [getLatestAction] is the action of the last operation of the
    entity's list; the list holds the pending operations in the order
    of their creation, a new operation goes to its end whatever is
    still pending, and the answer is [None] exactly when the entity
    has nothing pending. *)
Theorem getLatestAction_most_recent (cs : list Call) r :
  let ops := run cs in
  getLatestAction r ops
    = PendingOperation.action <$> last (getOperations r ops)
  ∧ getOperations r ops `sublist_of` created r cs
  ∧ (∀ a s oid now,
       getOperations r (addOperation r a s oid now ops).2
         = getOperations r ops ++ [PendingOperation.mk oid r a s now]
       ∧ getLatestAction r (addOperation r a s oid now ops).2 = Some a)
  ∧ (hasPendingOps r ops = false ↔ getLatestAction r ops = None).
Proof.
  intros ops. split_and!.
  - apply getLatestAction_last.
  - apply getOperations_sublist_created.
  - intros a s oid now.
    assert (getOperations r (addOperation r a s oid now ops).2
            = getOperations r ops ++ [PendingOperation.mk oid r a s now])
      as Hadd.
    { rewrite getOperations_add. rewrite decide_True by done. reflexivity. }
    split; [exact Hadd |].
    rewrite getLatestAction_last, Hadd, last_snoc. reflexivity.
  - rewrite getLatestAction_last, hasPendingOps_getOperations.
    rewrite bool_decide_eq_false.
    destruct (getOperations r ops) as [| o l] using rev_ind.
    + simpl. split; [reflexivity | intros _ H; apply H; reflexivity].
    + rewrite last_snoc. simpl. split.
      * intros H. exfalso. apply H. intros Heq.
        apply app_eq_nil in Heq as [_ Heq]. discriminate.
      * discriminate.
Qed.

(** With [approve] still pending, a later [block] is the latest action. *)
Example getLatestAction_two_pending :
  getPendingCount "E" (run Sample.two_pending) = 2
  ∧ getLatestAction "E" (run Sample.two_pending) = Some block.
Proof. split; vm_compute; reflexivity. Qed.

(** C8: [removeOperation] keeps, in order, the operations of the
    entity whose id differs and touches no other entity; when every
    operation of the entity had that id the entity has nothing
    pending afterwards; when none has it, the store is unchanged. *)
Theorem removeOperation_exact ops oid r :
  getOperations r (removeOperation oid r ops)
    = filter (λ op, PendingOperation.id op ≠ oid) (getOperations r ops)
  ∧ (∀ r', r' ≠ r → removeOperation oid r ops !! r' = ops !! r')
  ∧ ((∀ op, op ∈ getOperations r ops → PendingOperation.id op = oid) →
     hasPendingOps r (removeOperation oid r ops) = false)
  ∧ (no_empty_list ops →
     (∀ op, op ∈ getOperations r ops → PendingOperation.id op ≠ oid) →
     removeOperation oid r ops = ops).
Proof.
  assert (getOperations r (removeOperation oid r ops)
          = filter (λ op, PendingOperation.id op ≠ oid) (getOperations r ops))
    as Hrem.
  { rewrite getOperations_remove. rewrite decide_True by done. reflexivity. }
  split_and!.
  - exact Hrem.
  - intros r' Hne. apply removeOperation_other, Hne.
  - intros Hall. rewrite hasPendingOps_getOperations, Hrem.
    rewrite filter_all_drop; [reflexivity |].
    intros op Hop Hneq. apply Hneq, Hall, Hop.
  - apply removeOperation_absent.
Qed.

(** Removing the first of two pending operations keeps the second;
    removing an unknown id changes nothing. *)
Example removeOperation_two_pending :
  getOperations "E" (removeOperation "op1" "E" (run Sample.two_pending))
    = [PendingOperation.mk "op2" "E" block Approved 20]
  ∧ getOperations "E" (removeOperation "op9" "E" (run Sample.two_pending))
    = getOperations "E" (run Sample.two_pending)
  ∧ hasPendingOps "E"
      (removeOperation "op2" "E"
         (removeOperation "op1" "E" (run Sample.two_pending))) = false.
Proof. split_and!; vm_compute; reflexivity. Qed.

(** C10: in every store reached from the empty one by [addOperation],
    [removeOperation] and [clearOperations], [hasPendingOps] is true
    exactly when [getPendingCount] is positive, which is exactly when
    [getLatestAction] is not [None]; no key holds an empty list, and
    each of the three calls preserves that. *)
Theorem tracker_accessors_consistent (cs : list Call) r :
  let ops := run cs in
  (hasPendingOps r ops = true ↔ 0 < getPendingCount r ops)
  ∧ (0 < getPendingCount r ops ↔ getLatestAction r ops ≠ None)
  ∧ no_empty_list ops
  ∧ (∀ ops' c, no_empty_list ops' → no_empty_list (call ops' c)).
Proof.
  intros ops. split_and!.
  - rewrite hasPendingOps_getOperations, getPendingCount_getOperations.
    rewrite bool_decide_eq_true.
    destruct (getOperations r ops); simpl; split; try done; lia.
  - rewrite getLatestAction_last, getPendingCount_getOperations.
    destruct (getOperations r ops) as [| o l] using rev_ind.
    + simpl. split; [lia | done].
    + rewrite last_snoc, length_app. simpl. split; [done | lia].
  - apply no_empty_list_run.
  - apply no_empty_list_call.
Qed.

End TrackerClaims.

(** ** Cache lookups under the hooks' updaters *)

Section CacheFacts.
Implicit Types (r prev : ContentRecord.t) (d : list ContentRecord.t)
  (q : list (option (list ContentRecord.t))) (rid : string).

Lemma find_by_id_Some rid d r :
  find_by_id rid d = Some r → ContentRecord.id r = rid ∧ r ∈ d.
Proof.
  unfold find_by_id. intros H. apply find_some in H as [Hin Hid].
  apply bool_decide_eq_true in Hid. split; [exact Hid |].
  apply list_elem_of_In, Hin.
Qed.

Lemma find_in_caches_Some rid q r :
  find_in_caches rid q = Some r →
  ContentRecord.id r = rid ∧ ∃ d, Some d ∈ q ∧ r ∈ d.
Proof.
  induction q as [| [d |] q IH]; simpl; [discriminate | |].
  - destruct (find_by_id rid d) as [r' |] eqn:Hd.
    + intros [= ->]. apply find_by_id_Some in Hd as [Hid Hin].
      split; [exact Hid |]. exists d. split; [left | exact Hin].
    + intros H. apply IH in H as (Hid & d' & Hq & Hin).
      split; [exact Hid |]. exists d'. split; [right; exact Hq | exact Hin].
  - intros H. apply IH in H as (Hid & d' & Hq & Hin).
    split; [exact Hid |]. exists d'. split; [right; exact Hq | exact Hin].
Qed.

Section Updater.
Variable f : ContentRecord.t → ContentRecord.t.
Hypothesis f_id : ∀ r, ContentRecord.id (f r) = ContentRecord.id r.

Lemma find_by_id_map rid d :
  find_by_id rid (map f d) = f <$> find_by_id rid d.
Proof.
  unfold find_by_id. induction d as [| r d IH]; [reflexivity |].
  simpl. rewrite f_id. case_bool_decide; [reflexivity | exact IH].
Qed.

Lemma find_in_caches_setQueriesData rid q :
  find_in_caches rid (setQueriesData f q) = f <$> find_in_caches rid q.
Proof.
  induction q as [| [d |] q IH]; simpl; [reflexivity | | exact IH].
  rewrite find_by_id_map.
  destruct (find_by_id rid d); [reflexivity | exact IH].
Qed.
End Updater.

Lemma elem_of_setQueriesData f q d' :
  Some d' ∈ setQueriesData f q → ∃ d, Some d ∈ q ∧ d' = map f d.
Proof.
  unfold setQueriesData. intros H.
  apply list_elem_of_In, in_map_iff in H as ([d |] & Heq & Hin);
    [| discriminate].
  injection Heq as <-. exists d. split; [| reflexivity].
  apply list_elem_of_In, Hin.
Qed.

Lemma optimistic_id v next now r :
  ContentRecord.id (RecordMutation.optimistic v next now r)
  = ContentRecord.id r.
Proof. unfold RecordMutation.optimistic. case_bool_decide; reflexivity. Qed.

Lemma restore_id v prev r :
  ContentRecord.id prev = MutationParams.recordId v →
  ContentRecord.id (RecordMutation.restore v prev r) = ContentRecord.id r.
Proof.
  intros Hprev. unfold RecordMutation.restore.
  case_bool_decide; [congruence | reflexivity].
Qed.

End CacheFacts.

(** ** Single-entity mutation *)

Section RecordMutationFacts.
Import RecordMutation.
Implicit Types (v : MutationParams.t) (c : Client.t) (oid : string).

(** What [onMutate] does when the record is cached and the
    transition is legal. *)
Lemma onMutate_legal v oid nowMs nowIso c prev next :
  find_in_caches (MutationParams.recordId v) (Client.queries c) = Some prev →
  getNextStatus (ContentRecord.status prev) (MutationParams.action v)
    = Some next →
  begin v oid nowMs nowIso c =
    (Client.mk
       (setQueriesData (optimistic v next nowIso) (Client.queries c))
       (Tracker.addOperation (MutationParams.recordId v)
          (MutationParams.action v) (ContentRecord.status prev)
          oid nowMs (Client.operations c)).2
       (Client.toasts c),
     inr (Context.mk prev oid)).
Proof.
  intros Hfind Hnext. unfold begin, onMutate.
  rewrite Hfind. simpl. rewrite Hnext. reflexivity.
Qed.

(** What it does when the record is cached and the transition is not
    legal: the operation is added first, then the callback throws. *)
Lemma onMutate_illegal v oid nowMs nowIso c prev :
  find_in_caches (MutationParams.recordId v) (Client.queries c) = Some prev →
  getNextStatus (ContentRecord.status prev) (MutationParams.action v) = None →
  onMutate v oid nowMs nowIso c =
    (Client.set_operations
       (Tracker.addOperation (MutationParams.recordId v)
          (MutationParams.action v) (ContentRecord.status prev)
          oid nowMs (Client.operations c)).2 c,
     inl (Error "Invalid transition")).
Proof.
  intros Hfind Hnext. unfold onMutate.
  rewrite Hfind. simpl. rewrite Hnext. reflexivity.
Qed.

(** [begin] succeeds only on a cached record with a legal transition. *)
Lemma begin_inr_inv v oid nowMs nowIso c c1 ctx :
  begin v oid nowMs nowIso c = (c1, inr ctx) →
  ∃ next,
    find_in_caches (MutationParams.recordId v) (Client.queries c)
      = Some (Context.previousRecord ctx)
    ∧ getNextStatus (ContentRecord.status (Context.previousRecord ctx))
                    (MutationParams.action v) = Some next
    ∧ Context.operationId ctx = oid.
Proof.
  unfold begin, onMutate.
  destruct (find_in_caches _ _) as [prev |] eqn:Hfind; simpl;
    [| discriminate].
  destruct (getNextStatus _ _) as [next |] eqn:Hnext; [| discriminate].
  intros [= <- <-]. exists next. simpl. auto.
Qed.

(** C9: with the entity absent from every cache the mutation ends in
    the error [Record not found]; [onMutate] returns the client state
    it was given, the backing store is not touched, and the cache and
    the pending-operation store of the final state are the initial
    ones. *)
Theorem mutate_not_found mockRecords v oid nowMs nowIso d c recordsStore :
  find_in_caches (MutationParams.recordId v) (Client.queries c) = None →
  onMutate v oid nowMs nowIso c = (c, inl (Error "Record not found"))
  ∧ ∃ c',
      mutate mockRecords v oid nowMs nowIso d c recordsStore
        = (c', recordsStore, inl (Error "Record not found"))
      ∧ Client.queries c' = Client.queries c
      ∧ Client.operations c' = Client.operations c.
Proof.
  intros Hfind.
  assert (onMutate v oid nowMs nowIso c = (c, inl (Error "Record not found")))
    as Hm by (unfold onMutate; rewrite Hfind; reflexivity).
  split; [exact Hm |].
  exists (onError v None c). unfold mutate, begin. rewrite Hm.
  split_and!; reflexivity.
Qed.

Lemma mutate_not_found_witness :
  ∃ c',
    mutate [] Sample.approveE "op1" 10 "2024-06-01T12:00:00.000Z"
           (Sample.ok_draw 300)
           (Sample.client [Sample.entity "F" InReview])
           [Sample.entity "E" InReview]
      = (c', [Sample.entity "E" InReview], inl (Error "Record not found"))
    ∧ Client.queries c' = [Some [Sample.entity "F" InReview]]
    ∧ Client.operations c' = ∅.
Proof.
  apply (mutate_not_found [] Sample.approveE "op1" 10
           "2024-06-01T12:00:00.000Z" (Sample.ok_draw 300)
           (Sample.client [Sample.entity "F" InReview])
           [Sample.entity "E" InReview]).
  reflexivity.
Defined.

End RecordMutationFacts.

Section RecordMutationClaims.
Import RecordMutation.
Implicit Types (v : MutationParams.t) (c : Client.t) (oid : string).

(** [onError] with a context: every cached copy of the record is
    replaced by the snapshot, and the operation is removed. *)
Lemma onError_context v ctx c :
  Context.operationId ctx ≠ "" →
  Client.queries (onError v (Some ctx) c)
    = setQueriesData (restore v (Context.previousRecord ctx))
                     (Client.queries c)
  ∧ Client.operations (onError v (Some ctx) c)
    = Tracker.removeOperation (Context.operationId ctx)
        (MutationParams.recordId v) (Client.operations c).
Proof.
  intros Hoid. unfold onError. rewrite bool_decide_eq_true_2 by exact Hoid.
  split; reflexivity.
Qed.

Lemma onSuccess_context v ctx c :
  Context.operationId ctx ≠ "" →
  Client.queries (onSuccess v (Some ctx) c) = Client.queries c
  ∧ Client.operations (onSuccess v (Some ctx) c)
    = Tracker.removeOperation (Context.operationId ctx)
        (MutationParams.recordId v) (Client.operations c).
Proof.
  intros Hoid. unfold onSuccess. rewrite bool_decide_eq_true_2 by exact Hoid.
  split; reflexivity.
Qed.

(** C1, at the input [publish] on a cached record in [Queued]: the
    mutation ends in the error [Invalid transition] and the cache is
    untouched, but the operation registered before the check stays in
    the store, so the record reports a pending operation. *)
Theorem invalid_transition_leaves_pending :
  let c := Sample.client [Sample.entity "E" Queued] in
  ∃ c',
    mutate [] Sample.publishE "op1" 10 "2024-06-01T12:00:00.000Z"
           (Sample.ok_draw 300) c [Sample.entity "E" Queued]
      = (c', [Sample.entity "E" Queued], inl (Error "Invalid transition"))
    ∧ Client.queries c' = Client.queries c
    ∧ Tracker.hasPendingOps "E" (Client.operations c) = false
    ∧ Tracker.hasPendingOps "E" (Client.operations c') = true
    ∧ Tracker.getOperations "E" (Client.operations c')
      = [PendingOperation.mk "op1" "E" publish Queued 10].
Proof.
  intros c. eexists. split; [reflexivity |].
  split_and!; vm_compute; reflexivity.
Qed.

(** The same for every cached record and every rejected action. *)
Lemma begin_illegal_adds_operation v oid nowMs nowIso c prev :
  find_in_caches (MutationParams.recordId v) (Client.queries c) = Some prev →
  getNextStatus (ContentRecord.status prev) (MutationParams.action v) = None →
  ∃ c',
    begin v oid nowMs nowIso c = (c', inl (Error "Invalid transition"))
    ∧ Client.queries c' = Client.queries c
    ∧ Tracker.getOperations (MutationParams.recordId v) (Client.operations c')
      = Tracker.getOperations (MutationParams.recordId v) (Client.operations c)
        ++ [PendingOperation.mk oid (MutationParams.recordId v)
              (MutationParams.action v) (ContentRecord.status prev) nowMs].
Proof.
  intros Hfind Hnext. unfold begin.
  rewrite (onMutate_illegal _ _ _ _ _ _ Hfind Hnext).
  eexists. split; [reflexivity |]. split; [reflexivity |].
  unfold onError, Client.toast, Client.set_operations.
  cbn [Client.operations].
  rewrite getOperations_add, decide_True by done. reflexivity.
Qed.

(** C3 as stated fails: with [block] begun while [approve] is
    pending, the failure of [approve] leaves the record with a
    pending operation. *)
Lemma failed_mutation_other_still_pending :
  ∃ c1 ctxA c2 ctxB,
    begin Sample.approveE "op1" 10 "2024-06-01T12:00:00.000Z"
          (Sample.client [Sample.entity "E" InReview]) = (c1, inr ctxA)
    ∧ begin Sample.blockE "op2" 20 "2024-06-01T12:00:01.000Z" c1
      = (c2, inr ctxB)
    ∧ Tracker.hasPendingOps "E"
        (Client.operations
           (settle Sample.approveE ctxA (inl Sample.networkError) c2))
      = true.
Proof.
  do 4 eexists. split; [reflexivity |]. split; [reflexivity |].
  vm_compute. reflexivity.
Qed.

(** C3, amended: when the backing call of a begun mutation fails,
    whatever happened to the client in between, every cached copy of
    the record equals the snapshot taken when the mutation began, the
    lookup of the record gives that snapshot, and the entity's log
    keeps, in order, the operations with another id; the entity has
    nothing pending exactly when no operation with another id was
    pending. *)
Theorem failed_mutation_rolls_back v oid nowMs nowIso c c1 ctx e c2 :
  begin v oid nowMs nowIso c = (c1, inr ctx) →
  oid ≠ "" →
  let rid := MutationParams.recordId v in
  let c3 := settle v ctx (inl e) c2 in
  find_in_caches rid (Client.queries c) = Some (Context.previousRecord ctx)
  ∧ (∀ data r, Some data ∈ Client.queries c3 → r ∈ data →
               ContentRecord.id r = rid → r = Context.previousRecord ctx)
  ∧ find_in_caches rid (Client.queries c3)
    = (λ _, Context.previousRecord ctx)
        <$> find_in_caches rid (Client.queries c2)
  ∧ Tracker.getOperations rid (Client.operations c3)
    = filter (λ op, PendingOperation.id op ≠ oid)
             (Tracker.getOperations rid (Client.operations c2))
  ∧ (Tracker.hasPendingOps rid (Client.operations c3) = false
     ↔ ∀ op, op ∈ Tracker.getOperations rid (Client.operations c2) →
             PendingOperation.id op = oid).
Proof.
  intros Hbegin Hoid rid c3.
  destruct (begin_inr_inv _ _ _ _ _ _ _ Hbegin) as (next & Hfind & _ & Hctx).
  destruct (find_in_caches_Some _ _ _ Hfind) as [Hprev _].
  assert (Context.operationId ctx ≠ "") as Hoid' by congruence.
  destruct (onError_context v ctx c2 Hoid') as [Hq Ho].
  fold rid in Hq, Ho, Hfind, Hprev. rewrite Hctx in Ho.
  change (onError v (Some ctx) c2) with c3 in Hq, Ho.
  assert (Tracker.getOperations rid (Client.operations c3)
          = filter (λ op, PendingOperation.id op ≠ oid)
                   (Tracker.getOperations rid (Client.operations c2)))
    as Hops.
  { rewrite Ho, getOperations_remove, decide_True by done. reflexivity. }
  split_and!.
  - exact Hfind.
  - intros data r Hdata Hr Hid. rewrite Hq in Hdata.
    apply elem_of_setQueriesData in Hdata as (d & _ & ->).
    apply list_elem_of_In, in_map_iff in Hr as (r0 & <- & _).
    unfold restore in *. fold rid in Hid |- *.
    case_bool_decide; [reflexivity | contradiction].
  - rewrite Hq, find_in_caches_setQueriesData
      by (intros r; apply restore_id; exact Hprev).
    destruct (find_in_caches rid (Client.queries c2)) as [r0 |] eqn:H2;
      [| reflexivity].
    apply find_in_caches_Some in H2 as [Hr0 _]. simpl. f_equal.
    unfold restore. fold rid. rewrite bool_decide_eq_true_2 by exact Hr0.
    reflexivity.
  - exact Hops.
  - rewrite hasPendingOps_getOperations, Hops, bool_decide_eq_false.
    split.
    + intros Hnn op Hop.
      destruct (decide (PendingOperation.id op = oid)) as [Heq | Hne];
        [exact Heq |].
      exfalso. apply Hnn. intros Hnil.
      exact (filter_nil_not_elem_of _ _ op Hnil Hne Hop).
    + intros Hall Hne. apply Hne, filter_all_drop.
      intros x Hx HP. apply HP, Hall, Hx.
Qed.

End RecordMutationClaims.

Section OverlappingOperations.
Import RecordMutation.
Implicit Types (v : MutationParams.t) (c : Client.t) (oid : string).

Lemma failed_mutation_rolls_back_witness :
  let c := Sample.client [Sample.entity "E" InReview] in
  let c1 := (begin Sample.approveE "op1" 10 "2024-06-01T12:00:00.000Z" c).1 in
  let ctx := Context.mk (Sample.entity "E" InReview) "op1" in
  let c3 := settle Sample.approveE ctx (inl Sample.networkError) c1 in
  find_in_caches "E" (Client.queries c3) = Some (Sample.entity "E" InReview)
  ∧ Tracker.getOperations "E" (Client.operations c3) = [].
Proof.
  intros c c1 ctx c3.
  destruct (failed_mutation_rolls_back Sample.approveE "op1" 10
              "2024-06-01T12:00:00.000Z" c c1 ctx Sample.networkError c1
              eq_refl ltac:(discriminate))
    as (_ & _ & Hlookup & Hops & _).
  split.
  - etrans; [exact Hlookup | reflexivity].
  - etrans; [exact Hops | reflexivity].
Defined.

Lemma onError_lookup v ctx c :
  Context.operationId ctx ≠ "" →
  ContentRecord.id (Context.previousRecord ctx) = MutationParams.recordId v →
  find_in_caches (MutationParams.recordId v)
                 (Client.queries (onError v (Some ctx) c))
  = (λ _, Context.previousRecord ctx)
      <$> find_in_caches (MutationParams.recordId v) (Client.queries c).
Proof.
  intros Hoid Hprev. destruct (onError_context v ctx c Hoid) as [-> _].
  rewrite find_in_caches_setQueriesData
    by (intros r; apply restore_id; exact Hprev).
  destruct (find_in_caches _ (Client.queries c)) as [r0 |] eqn:H2;
    [| reflexivity].
  apply find_in_caches_Some in H2 as [Hr0 _]. simpl. f_equal.
  unfold restore. rewrite bool_decide_eq_true_2 by exact Hr0. reflexivity.
Qed.

(** The cache lookup and the entity's log after a legal [begin]. *)
Lemma begin_legal_effect v oid nowMs nowIso c prev next :
  find_in_caches (MutationParams.recordId v) (Client.queries c) = Some prev →
  getNextStatus (ContentRecord.status prev) (MutationParams.action v)
    = Some next →
  ∃ c1,
    begin v oid nowMs nowIso c = (c1, inr (Context.mk prev oid))
    ∧ find_in_caches (MutationParams.recordId v) (Client.queries c1)
      = Some (spread_update prev next nowIso
                (nullish (MutationParams.blockReason v)
                         (ContentRecord.blockReason prev)))
    ∧ Tracker.getOperations (MutationParams.recordId v) (Client.operations c1)
      = Tracker.getOperations (MutationParams.recordId v) (Client.operations c)
        ++ [PendingOperation.mk oid (MutationParams.recordId v)
              (MutationParams.action v) (ContentRecord.status prev) nowMs].
Proof.
  intros Hfind Hnext.
  rewrite (onMutate_legal _ _ _ _ _ _ _ Hfind Hnext).
  eexists. split; [reflexivity |]. cbn [Client.queries Client.operations].
  split.
  - rewrite find_in_caches_setQueriesData
      by (intros r; apply optimistic_id).
    rewrite Hfind. simpl. f_equal. unfold optimistic.
    apply find_in_caches_Some in Hfind as [Hid _].
    rewrite bool_decide_eq_true_2 by exact Hid. reflexivity.
  - rewrite getOperations_add, decide_True by done. reflexivity.
Qed.

(** C4 as stated fails: [block] begun while [approve] is pending
    reads the record [approve] has already written, so its anchor is
    [Approved], not [InReview]. *)
Lemma overlapping_block_anchor_is_not_InReview :
  ∃ c1 ctxA c2 ctxB,
    begin Sample.approveE "op1" 10 "2024-06-01T12:00:00.000Z"
          (Sample.client [Sample.entity "E" InReview]) = (c1, inr ctxA)
    ∧ begin Sample.blockE "op2" 20 "2024-06-01T12:00:01.000Z" c1
      = (c2, inr ctxB)
    ∧ ContentRecord.status (Context.previousRecord ctxB) ≠ InReview
    ∧ PendingOperation.previousStatus
        <$> last (Tracker.getOperations "E" (Client.operations c2))
      = Some Approved.
Proof.
  do 4 eexists. split; [reflexivity |]. split; [reflexivity |].
  split; [discriminate |]. vm_compute. reflexivity.
Qed.

(** C4, amended: for a cached entity in [InReview], [approve] (A) and
    then [block] with reason policy (B).  When B begins while A is
    pending, B's anchor is [Approved], the cached record becomes
    [Blocked] with the reason, and a failure of A then puts the
    record A began with, in [InReview], back into the cache.  When A
    has committed before B begins, B's anchor is [Approved] and the
    cached record becomes [Blocked] with the reason. *)
Theorem overlapping_approve_block
    (e : ContentRecord.t) c0 oidA oidB tA tB isoA isoB err data :
  ContentRecord.status e = InReview →
  find_in_caches (ContentRecord.id e) (Client.queries c0) = Some e →
  oidA ≠ "" →
  let E := ContentRecord.id e in
  let A := MutationParams.mk E approve None in
  let B := MutationParams.mk E block (Some "policy") in
  let opB := PendingOperation.mk oidB E block Approved tB in
  let blocked := spread_update e Blocked isoB (Some "policy") in
  ∃ c1 ctxA,
    begin A oidA tA isoA c0 = (c1, inr ctxA)
    ∧ Context.previousRecord ctxA = e
    ∧ (∃ c2 ctxB,
         begin B oidB tB isoB c1 = (c2, inr ctxB)
         ∧ ContentRecord.status (Context.previousRecord ctxB) = Approved
         ∧ last (Tracker.getOperations E (Client.operations c2)) = Some opB
         ∧ find_in_caches E (Client.queries c2) = Some blocked
         ∧ find_in_caches E
             (Client.queries (settle A ctxA (inl err) c2)) = Some e)
    ∧ (∃ c2 ctxB,
         begin B oidB tB isoB (settle A ctxA (inr data) c1) = (c2, inr ctxB)
         ∧ ContentRecord.status (Context.previousRecord ctxB) = Approved
         ∧ last (Tracker.getOperations E (Client.operations c2)) = Some opB
         ∧ find_in_caches E (Client.queries c2) = Some blocked).
Proof.
  intros Hst Hfind0 HoidA E A B opB blocked.
  assert (getNextStatus (ContentRecord.status e) (MutationParams.action A)
          = Some Approved) as HnextA by (rewrite Hst; reflexivity).
  destruct (begin_legal_effect A oidA tA isoA c0 e Approved Hfind0 HnextA)
    as (c1 & HbeginA & Hfind1 & _).
  set (eA := spread_update e Approved isoA
               (nullish (MutationParams.blockReason A)
                        (ContentRecord.blockReason e))) in Hfind1.
  assert (getNextStatus (ContentRecord.status eA) (MutationParams.action B)
          = Some Blocked) as HnextB by reflexivity.
  exists c1, (Context.mk e oidA). split; [exact HbeginA |].
  split; [reflexivity |]. split.
  - destruct (begin_legal_effect B oidB tB isoB c1 eA Blocked Hfind1 HnextB)
      as (c2 & HbeginB & Hfind2 & Hops2).
    exists c2, (Context.mk eA oidB). split_and!.
    + exact HbeginB.
    + reflexivity.
    + change (MutationParams.recordId B) with E in Hops2.
      rewrite Hops2, last_snoc. reflexivity.
    + exact Hfind2.
    + change (settle A (Context.mk e oidA) (inl err) c2)
        with (onError A (Some (Context.mk e oidA)) c2).
      change E with (MutationParams.recordId A).
      rewrite onError_lookup by (simpl; done).
      change (MutationParams.recordId A) with (MutationParams.recordId B).
      rewrite Hfind2. reflexivity.
  - change (settle A (Context.mk e oidA) (inr data) c1)
      with (onSuccess A (Some (Context.mk e oidA)) c1).
    destruct (onSuccess_context A (Context.mk e oidA) c1 HoidA) as [Hq _].
    assert (find_in_caches (MutationParams.recordId B)
              (Client.queries (onSuccess A (Some (Context.mk e oidA)) c1))
            = Some eA) as Hfind1' by (rewrite Hq; exact Hfind1).
    destruct (begin_legal_effect B oidB tB isoB _ eA Blocked Hfind1' HnextB)
      as (c2 & HbeginB & Hfind2 & Hops2).
    exists c2, (Context.mk eA oidB). split_and!.
    + exact HbeginB.
    + reflexivity.
    + change (MutationParams.recordId B) with E in Hops2.
      rewrite Hops2, last_snoc. reflexivity.
    + exact Hfind2.
Qed.

Lemma overlapping_approve_block_witness :
  let e := Sample.entity "E" InReview in
  let c0 := Sample.client [e] in
  ∃ c1 ctxA,
    begin Sample.approveE "op1" 10 "2024-06-01T12:00:00.000Z" c0
      = (c1, inr ctxA)
    ∧ ∃ c2 ctxB,
        begin Sample.blockE "op2" 20 "2024-06-01T12:00:01.000Z" c1
          = (c2, inr ctxB)
        ∧ ContentRecord.status (Context.previousRecord ctxB) = Approved
        ∧ find_in_caches "E"
            (Client.queries
               (settle Sample.approveE ctxA (inl Sample.networkError) c2))
          = Some e.
Proof.
  intros e c0.
  destruct (overlapping_approve_block e c0 "op1" "op2" 10 20
              "2024-06-01T12:00:00.000Z" "2024-06-01T12:00:01.000Z"
              Sample.networkError e eq_refl eq_refl ltac:(discriminate))
    as (c1 & ctxA & HA & _ & (c2 & ctxB & HB & Hanchor & _ & _ & Hback) & _).
  exists c1, ctxA. split; [exact HA |].
  exists c2, ctxB. split; [exact HB |]. split; [exact Hanchor | exact Hback].
Defined.

End OverlappingOperations.

(** ** The mock API and the batch mutation *)

Section MockApiFacts.
Import MockApi.
Variable mockRecords : list ContentRecord.t.

Lemma findIndex_by_id_Some rid store i :
  findIndex_by_id rid store = Some i →
  ∃ record, store !! i = Some record ∧ ContentRecord.id record = rid
    ∧ list_find (λ r, ContentRecord.id r = rid) store = Some (i, record).
Proof.
  unfold findIndex_by_id.
  destruct (list_find _ store) as [[j record] |] eqn:Hfind; [| discriminate].
  intros [= <-]. exists record.
  pose proof Hfind as Hf. apply list_find_Some in Hf as (Hl & Hid & _). auto.
Qed.

Lemma updateRecord_resume_legal params d store i record next :
  fail d = false →
  list_find (λ r, ContentRecord.id r = MutationParams.recordId params) store
    = Some (i, record) →
  getNextStatus (ContentRecord.status record) (MutationParams.action params)
    = Some next →
  let updatedRecord :=
    spread_update record next (now d)
      (if bool_decide (MutationParams.action params = block)
       then MutationParams.blockReason params
       else ContentRecord.blockReason record) in
  updateRecord_resume params d store
    = (<[i := updatedRecord]> store, inr updatedRecord).
Proof.
  intros Hfail Hfind Hnext. unfold updateRecord_resume, findIndex_by_id.
  rewrite Hfail, Hfind. simpl.
  apply list_find_Some in Hfind as (-> & _ & _). rewrite Hnext. reflexivity.
Qed.

Lemma updateRecord_resume_illegal params d store i record :
  fail d = false →
  list_find (λ r, ContentRecord.id r = MutationParams.recordId params) store
    = Some (i, record) →
  getNextStatus (ContentRecord.status record) (MutationParams.action params)
    = None →
  updateRecord_resume params d store
    = (store,
       inl (ApiError
              ("Invalid transition: Cannot "
               +:+ ActionType_str (MutationParams.action params)
               +:+ " a record with status " +:+ dquote
               +:+ Status_str (ContentRecord.status record) +:+ dquote)
              "INVALID_TRANSITION")).
Proof.
  intros Hfail Hfind Hnext. unfold updateRecord_resume, findIndex_by_id.
  rewrite Hfail, Hfind. simpl.
  apply list_find_Some in Hfind as (-> & _ & _). rewrite Hnext. reflexivity.
Qed.

Lemma batch_step_legal params store results rid d i record next :
  fail d = false →
  list_find (λ r, ContentRecord.id r = rid) store = Some (i, record) →
  getNextStatus (ContentRecord.status record)
                (BatchMutationParams.action params) = Some next →
  let updatedRecord :=
    spread_update record next (now d)
      (if bool_decide (BatchMutationParams.action params = block)
       then BatchMutationParams.blockReason params
       else ContentRecord.blockReason record) in
  batch_step params (store, results) (rid, d)
    = (<[i := updatedRecord]> store,
       BatchResult.mk (BatchResult.successful results ++ [updatedRecord])
                      (BatchResult.failed results)).
Proof.
  intros Hfail Hfind Hnext. unfold batch_step. cbn [fst snd].
  rewrite (updateRecord_resume_legal
             (MutationParams.mk rid _ _) d store i record next Hfail Hfind Hnext).
  reflexivity.
Qed.

Lemma batch_step_illegal params store results rid d i record :
  fail d = false →
  list_find (λ r, ContentRecord.id r = rid) store = Some (i, record) →
  getNextStatus (ContentRecord.status record)
                (BatchMutationParams.action params) = None →
  batch_step params (store, results) (rid, d)
    = (store,
       BatchResult.mk (BatchResult.successful results)
         (BatchResult.failed results
            ++ [(rid,
                 "Invalid transition: Cannot "
                 +:+ ActionType_str (BatchMutationParams.action params)
                 +:+ " a record with status " +:+ dquote
                 +:+ Status_str (ContentRecord.status record) +:+ dquote)])).
Proof.
  intros Hfail Hfind Hnext. unfold batch_step. cbn [fst snd].
  rewrite (updateRecord_resume_illegal
             (MutationParams.mk rid _ _) d store i record Hfail Hfind Hnext).
  reflexivity.
Qed.

Lemma batch_publish_server x y reason draws :
ContentRecord.id x ≠ ContentRecord.id y →
ContentRecord.status x = Approved →
ContentRecord.status y = Queued →
MockApi.fail (draws 0) = false →
MockApi.fail (draws 1) = false →
let x' := spread_update x Published (MockApi.now (draws 0)) (ContentRecord.blockReason x) in
MockApi.batchUpdate mockRecords
  (BatchMutationParams.mk [ContentRecord.id x; ContentRecord.id y] publish reason)
  draws [x; y]
= ([x'; y],
   BatchResult.mk [x']
     [(ContentRecord.id y,
       "Invalid transition: Cannot publish a record with status "
         +:+ dquote +:+ "Queued" +:+ dquote)]).
Proof.
intros Hne Hx Hy Hf0 Hf1 x'.
set (params := BatchMutationParams.mk _ _ _).
assert (list_find (λ r, ContentRecord.id r = ContentRecord.id x) [x; y]
        = Some (0, x)) as Hfx.
{ simpl. rewrite decide_True by done. reflexivity. }
assert (∀ x0, ContentRecord.id x0 = ContentRecord.id x →
          list_find (λ r, ContentRecord.id r = ContentRecord.id y) [x0; y]
          = Some (1, y)) as Hfy.
{ intros x0 Hx0. simpl. rewrite decide_False by congruence.
  rewrite decide_True by done. reflexivity. }
assert (getNextStatus (ContentRecord.status x)
          (BatchMutationParams.action params) = Some Published)
  as Hnx by (rewrite Hx; reflexivity).
assert (getNextStatus (ContentRecord.status y)
          (BatchMutationParams.action params) = None)
  as Hny by (rewrite Hy; reflexivity).
unfold batchUpdate. cbn [BatchMutationParams.recordIds params].
unfold initializeStore. simpl foldl at 2.
cbn [imap]. unfold firing_order. cbn [foldr fire_insert].
unfold compose. cbn [fst snd].
case_bool_decide; cbn [foldl].
- rewrite (batch_step_legal params _ _ _ _ 0 x Published Hf0 Hfx Hnx).
  change (<[0 := _]> [x; y]) with [x'; y].
  rewrite (batch_step_illegal params _ _ _ _ 1 y Hf1 (Hfy x' eq_refl) Hny).
  rewrite Hy. reflexivity.
- rewrite (batch_step_illegal params _ _ _ _ 1 y Hf1 (Hfy x eq_refl) Hny).
  rewrite (batch_step_legal params _ _ _ _ 0 x Published Hf0 Hfx Hnx).
  rewrite Hy. reflexivity.
Qed.
End MockApiFacts.

Section BatchFacts.
Import BatchMutation.

Lemma visit_new vars nanoidFor nowFor data ctx ops rid record :
  find_by_id rid data = Some record →
  rid ∉ (Context.previousRecords ctx).*1 →
  visit vars nanoidFor nowFor data (ctx, ops) rid
  = (Context.mk (Context.previousRecords ctx ++ [(rid, record)])
                (Context.operationIds ctx ++ [(rid, nanoidFor rid)]),
     (Tracker.addOperation rid (BatchMutationParams.action vars)
        (ContentRecord.status record) (nanoidFor rid) (nowFor rid) ops).2).
Proof.
  intros Hfind Hnew. unfold visit. rewrite Hfind.
  rewrite bool_decide_eq_false_2 by exact Hnew. reflexivity.
Qed.

Lemma batch_onMutate_two x y reason nanoidFor nowFor nowIso toasts :
  ContentRecord.id x ≠ ContentRecord.id y →
  ContentRecord.status x = Approved →
  ContentRecord.status y = Queued →
  let X := ContentRecord.id x in
  let Y := ContentRecord.id y in
  let vars := BatchMutationParams.mk [X; Y] publish reason in
  onMutate vars nanoidFor nowFor nowIso (Client.mk [Some [x; y]] ∅ toasts)
  = (Client.mk
       [Some [spread_update x Published nowIso
                (nullish reason (ContentRecord.blockReason x)); y]]
       (Tracker.addOperation Y publish Queued (nanoidFor Y) (nowFor Y)
          (Tracker.addOperation X publish Approved (nanoidFor X) (nowFor X)
             ∅).2).2
       toasts,
     Context.mk [(X, x); (Y, y)] [(X, nanoidFor X); (Y, nanoidFor Y)]).
Proof.
  intros Hne Hx Hy X Y vars.
  assert (find_by_id X [x; y] = Some x) as HfX.
  { unfold find_by_id. simpl. rewrite bool_decide_eq_true_2 by done.
    reflexivity. }
  assert (find_by_id Y [x; y] = Some y) as HfY.
  { unfold find_by_id. simpl. rewrite bool_decide_eq_false_2 by exact Hne.
    rewrite bool_decide_eq_true_2 by done. reflexivity. }
  unfold onMutate. cbn [Client.queries Client.operations foldl].
  cbn [BatchMutationParams.recordIds vars foldl].
  rewrite (visit_new _ _ _ _ _ _ X x HfX) by (simpl; apply not_elem_of_nil).
  rewrite (visit_new _ _ _ _ _ _ Y y HfY).
  2:{ simpl. rewrite list_elem_of_singleton. subst X Y. congruence. }
  cbn [Context.previousRecords Context.operationIds app
       BatchMutationParams.action].
  rewrite Hx, Hy. unfold Client.set_queries, Client.set_operations.
  cbn [Client.queries Client.operations Client.toasts].
  f_equal. f_equal. unfold setQueriesData. simpl. f_equal. f_equal.
  unfold optimistic. cbn [BatchMutationParams.recordIds].
  rewrite (bool_decide_eq_true_2 (ContentRecord.id x ∈ [X; Y]))
    by (left).
  rewrite (bool_decide_eq_true_2 (ContentRecord.id y ∈ [X; Y]))
    by (right; left).
  rewrite Hx, Hy. reflexivity.
Qed.

(** C6: a batch [publish] over X in [Approved] and Y in [Queued],
    with neither backing call hit by the simulated network failure:
    whichever call finishes first, [successful] is exactly X advanced
    to [Published], [failed] is exactly Y with the invalid-transition
    message, the mutation resolves rather than throws, the toast is
    the partial one, X stays [Published] in the cache and in the
    backing store, and nothing is left pending. *)
Theorem batch_publish_partial
    mockRecords x y reason nanoidFor nowFor nowIso draws :
  ContentRecord.id x ≠ ContentRecord.id y →
  ContentRecord.status x = Approved →
  ContentRecord.status y = Queued →
  MockApi.fail (draws 0) = false →
  MockApi.fail (draws 1) = false →
  let X := ContentRecord.id x in
  let Y := ContentRecord.id y in
  let vars := BatchMutationParams.mk [X; Y] publish reason in
  let published :=
    spread_update x Published (MockApi.now (draws 0))
                  (ContentRecord.blockReason x) in
  let result :=
    BatchResult.mk [published]
      [(Y, "Invalid transition: Cannot publish a record with status "
           +:+ dquote +:+ "Queued" +:+ dquote)] in
  ∃ c',
    mutate mockRecords vars nanoidFor nowFor nowIso draws
           (Client.mk [Some [x; y]] ∅ []) [x; y]
      = (c', [published; y], result)
    ∧ ContentRecord.status published = Published
    ∧ Client.toasts c'
      = [Toast.mk ToastWarning "Partially completed"
                  "1 succeeded, 1 failed."]
    ∧ classification <$> summary vars result = Some Partial
    ∧ ContentRecord.status <$> find_in_caches X (Client.queries c')
      = Some Published
    ∧ find_in_caches Y (Client.queries c') = Some y
    ∧ ∀ r, Tracker.getOperations r (Client.operations c') = [].
Proof.
  intros Hne Hx Hy Hf0 Hf1 X Y vars published result.
  pose proof (batch_onMutate_two x y reason nanoidFor nowFor nowIso []
                Hne Hx Hy) as Hclient.
  pose proof (batch_publish_server mockRecords x y reason draws
                Hne Hx Hy Hf0 Hf1) as Hserver.
  cbv zeta in Hclient, Hserver. fold X Y in Hclient, Hserver.
  fold vars in Hclient, Hserver. fold published in Hserver.
  fold result in Hserver.
  unfold mutate. rewrite Hclient, Hserver. clear Hclient Hserver.
  eexists. split; [reflexivity |]. split_and!.
  - reflexivity.
  - reflexivity.
  - reflexivity.
  - unfold onSuccess. simpl. rewrite bool_decide_eq_true_2 by done.
    reflexivity.
  - unfold onSuccess. simpl. fold X Y.
    rewrite bool_decide_eq_false_2 by exact Hne.
    rewrite bool_decide_eq_true_2 by done. reflexivity.
  - intros r. unfold onSuccess.
    assert (summary vars result
            = Some (Toast.mk ToastWarning "Partially completed"
                             "1 succeeded, 1 failed.")) as -> by reflexivity.
    unfold Client.toast, Client.set_operations, remove_all.
    cbn [Client.operations Context.operationIds foldl fst snd].
    rewrite !getOperations_remove, !getOperations_add.
    unfold Tracker.getOperations. rewrite lookup_empty. simpl.
    assert (X ≠ Y) as HXY by exact Hne.
    repeat case_decide; try congruence; try reflexivity.
    all: rewrite ?app_nil_l.
    all: rewrite filter_cons_False by (simpl; intros Hk; apply Hk; reflexivity).
    all: reflexivity.
Qed.

Lemma batch_publish_partial_witness :
  let x := Sample.entity "X" Approved in
  let y := Sample.entity "Y" Queued in
  ∃ c',
    mutate [] (BatchMutationParams.mk ["X"; "Y"] publish None)
           (λ r, "op-" +:+ r) (λ _, 10%Z) "2024-06-01T12:00:00.000Z"
           (λ _, Sample.ok_draw 300)
           (Client.mk [Some [x; y]] ∅ []) [x; y]
      = (c',
         [spread_update x Published "2024-06-01T12:00:00.000Z" None; y],
         BatchResult.mk
           [spread_update x Published "2024-06-01T12:00:00.000Z" None]
           [("Y", "Invalid transition: Cannot publish a record with status "
                  +:+ dquote +:+ "Queued" +:+ dquote)])
    ∧ Client.toasts c'
      = [Toast.mk ToastWarning "Partially completed"
                  "1 succeeded, 1 failed."].
Proof.
  intros x y.
  destruct (batch_publish_partial [] x y None (λ r, "op-" +:+ r)
              (λ _, 10%Z) "2024-06-01T12:00:00.000Z"
              (λ _, Sample.ok_draw 300)
              ltac:(discriminate) eq_refl eq_refl eq_refl eq_refl)
    as (c' & Hm & _ & Ht & _).
  exists c'. split; [exact Hm | exact Ht].
Defined.

End BatchFacts.

(** ** The reason field *)

Section ReasonField.
Import RecordMutation.

(** The record the backing call commits carries the supplied reason
    for [block] and the stored one for every other action. *)
Lemma updateRecord_resume_reason params d store store' committed :
  MockApi.updateRecord_resume params d store = (store', inr committed) →
  ∃ i record,
    store !! i = Some record
    ∧ ContentRecord.id record = MutationParams.recordId params
    ∧ ContentRecord.blockReason committed
      = if decide (MutationParams.action params = block)
        then MutationParams.blockReason params
        else ContentRecord.blockReason record.
Proof.
  unfold MockApi.updateRecord_resume.
  destruct (MockApi.fail d); [discriminate |].
  destruct (findIndex_by_id _ store) as [i |] eqn:Hi; [| discriminate].
  apply findIndex_by_id_Some in Hi as (record & Hl & Hid & _).
  rewrite Hl. destruct (getNextStatus _ _); [| discriminate].
  intros [= _ <-]. exists i, record. split_and!; [done | done |].
  simpl. unfold bool_decide. destruct (decide_rel _ _ _); reflexivity.
Qed.

(** The optimistic write takes the supplied reason whenever there is
    one, whatever the action. *)
Lemma optimistic_reason v next nowIso r :
  ContentRecord.id r = MutationParams.recordId v →
  ContentRecord.blockReason (optimistic v next nowIso r)
  = nullish (MutationParams.blockReason v) (ContentRecord.blockReason r).
Proof.
  intros Hid. unfold optimistic.
  rewrite bool_decide_eq_true_2 by exact Hid. reflexivity.
Qed.

(** C5, at the input [review] with a reason supplied, on a cached
    record in [Queued] that has no reason: the optimistic write sets
    the record's reason to the supplied one, while the record the
    backing call commits keeps it absent. *)
Theorem optimistic_write_sets_reason_on_review :
  let e := Sample.entity "E" Queued in
  ∃ c1 ctx committed,
    begin Sample.reviewE_with_reason "op1" 10 "2024-06-01T12:00:00.000Z"
          (Sample.client [e]) = (c1, inr ctx)
    ∧ ContentRecord.blockReason e = None
    ∧ ContentRecord.blockReason <$> find_in_caches "E" (Client.queries c1)
      = Some (Some "x")
    ∧ MockApi.updateRecord [] Sample.reviewE_with_reason (Sample.ok_draw 300)
        [e] = ([committed], inr committed)
    ∧ ContentRecord.blockReason committed = None.
Proof.
  intros e. do 3 eexists.
  split; [reflexivity |]. split; [reflexivity |].
  split; [reflexivity |]. split; reflexivity.
Qed.

End ReasonField.

(** * Further properties of the modelled code *)

(** ** Workflow paths *)

Lemma getNextStatus_rank s a s' :
  getNextStatus s a = Some s' → Status_rank s < Status_rank s'.
Proof.
  rewrite getNextStatus_cases.
  destruct s, a; simpl; intros [= <-]; simpl; lia.
Qed.

Lemma apply_actions_rank s actions s' :
  apply_actions s actions = Some s' →
  Status_rank s + length actions ≤ Status_rank s'.
Proof.
  revert s. induction actions as [| a rest IH]; intros s; simpl.
  - intros [= ->]. lia.
  - destruct (getNextStatus s a) as [s1 |] eqn:Hstep; [| discriminate].
    intros Hrest. apply IH in Hrest.
    apply getNextStatus_rank in Hstep. lia.
Qed.

(** X1: [Blocked] is terminal, [block] is legal from exactly the four
    other statuses, a legal transition never keeps the status, and an
    action leads to the same status from wherever it is legal. *)
Theorem workflow_shape :
  (∀ a, isValidAction Blocked a = false)
  ∧ (∀ s, isValidAction s block = true ↔ s ≠ Blocked)
  ∧ (∀ s a s', getNextStatus s a = Some s' → s' ≠ s)
  ∧ (∀ s1 s2 a t1 t2,
       getNextStatus s1 a = Some t1 → getNextStatus s2 a = Some t2 → t1 = t2).
Proof.
  split_and!.
  - intros a. destruct a; reflexivity.
  - intros s. destruct s; simpl; split; intros H; try done.
  - intros s a s' Hstep ->. apply getNextStatus_rank in Hstep. lia.
  - intros s1 s2 a t1 t2. rewrite !getNextStatus_cases.
    destruct s1, s2, a; simpl; congruence.
Qed.

(** X2: a record goes through at most four accepted actions, and after
    one or more of them it is never back at the status it started
    from. *)
Theorem workflow_paths_are_short s actions s' :
  apply_actions s actions = Some s' →
  length actions ≤ 4 ∧ (actions ≠ [] → s' ≠ s).
Proof.
  intros Hpath. apply apply_actions_rank in Hpath. split.
  - destruct s'; simpl in Hpath; lia.
  - intros Hne ->. destruct actions; [done | simpl in Hpath; lia].
Qed.

Lemma workflow_paths_are_short_witness :
  length [review; approve; publish; block] ≤ 4
  ∧ ([review; approve; publish; block] ≠ [] → Blocked ≠ Queued).
Proof.
  apply (workflow_paths_are_short Queued [review; approve; publish; block]
           Blocked).
  reflexivity.
Defined.

(** ** More on the pending-operation store *)

Section TrackerMore.
Import Tracker.
Implicit Types (ops : Tracker.Ops) (r oid : string).

Lemma lookup_of_getOperations r ops :
  no_empty_list ops →
  ops !! r = if decide (getOperations r ops = []) then None
             else Some (getOperations r ops).
Proof.
  intros Hinv. specialize (Hinv r). unfold getOperations.
  destruct (ops !! r) as [[| o l] |]; simpl; try done.
Qed.

Lemma no_empty_list_remove oid r ops :
  no_empty_list ops → no_empty_list (removeOperation oid r ops).
Proof. intros H. exact (no_empty_list_call ops (CallRemove oid r) H). Qed.

Lemma no_empty_list_add r a s oid now ops :
  no_empty_list ops → no_empty_list (addOperation r a s oid now ops).2.
Proof. intros H. exact (no_empty_list_call ops (CallAdd r a s oid now) H). Qed.

(** Two stores without empty lists are equal when every entity has the
    same operations in both. *)
Lemma ops_eq_by_getOperations ops1 ops2 :
  no_empty_list ops1 → no_empty_list ops2 →
  (∀ r, getOperations r ops1 = getOperations r ops2) → ops1 = ops2.
Proof.
  intros H1 H2 Heq. apply map_eq. intros r.
  rewrite (lookup_of_getOperations r ops1 H1),
          (lookup_of_getOperations r ops2 H2), Heq.
  reflexivity.
Qed.

(** X3: ending an operation right after beginning it gives back the
    store as it was, when the id is new for the entity. *)
Theorem add_then_remove_restores r a s oid now ops :
  no_empty_list ops →
  (∀ op, op ∈ getOperations r ops → PendingOperation.id op ≠ oid) →
  removeOperation oid r (addOperation r a s oid now ops).2 = ops.
Proof.
  intros Hinv Hfresh. apply ops_eq_by_getOperations.
  - apply no_empty_list_remove, no_empty_list_add, Hinv.
  - exact Hinv.
  - intros r'. rewrite getOperations_remove, getOperations_add.
    destruct (decide (r = r')) as [<- | Hne]; [| reflexivity].
    rewrite filter_app, (filter_all_keep _ _ Hfresh).
    rewrite filter_cons_False by (simpl; intros Hk; apply Hk; reflexivity).
    apply app_nil_r.
Qed.

Lemma add_then_remove_restores_witness :
  removeOperation "op3" "E"
    (addOperation "E" publish Approved "op3" 30 (run Sample.two_pending)).2
  = run Sample.two_pending.
Proof.
  apply (add_then_remove_restores "E" publish Approved "op3" 30
           (run Sample.two_pending)).
  - apply no_empty_list_run.
  - intros op Hop. vm_compute in Hop.
    apply elem_of_cons in Hop as [-> | Hop]; [discriminate |].
    apply elem_of_cons in Hop as [-> | Hop]; [discriminate |].
    apply elem_of_nil in Hop. contradiction.
Defined.

Lemma removeOperation_lookup oid r ops r' :
  removeOperation oid r ops !! r'
  = if decide (r = r')
    then
      if decide (filter (λ op, PendingOperation.id op ≠ oid)
                        (getOperations r ops) = [])
      then None
      else Some (filter (λ op, PendingOperation.id op ≠ oid)
                        (getOperations r ops))
    else ops !! r'.
Proof.
  unfold removeOperation. fold (getOperations r ops).
  set (f := filter _ (getOperations r ops)).
  destruct (decide (r = r')) as [<- | Hne].
  - case_bool_decide as Hlen.
    + apply length_zero_iff_nil in Hlen. rewrite decide_True by exact Hlen.
      apply lookup_delete_eq.
    + rewrite decide_False
        by (intros Hnil; apply Hlen; rewrite Hnil; reflexivity).
      apply lookup_insert_eq.
  - case_bool_decide.
    + apply lookup_delete_ne, Hne.
    + apply lookup_insert_ne, Hne.
Qed.

(** X4: settlements commute: ending two operations leaves the same
    store in either order, for the same or for different entities. *)
Theorem removeOperation_commute oid1 r1 oid2 r2 ops :
  removeOperation oid1 r1 (removeOperation oid2 r2 ops)
  = removeOperation oid2 r2 (removeOperation oid1 r1 ops).
Proof.
  apply map_eq. intros r. rewrite !removeOperation_lookup.
  rewrite !getOperations_remove.
  destruct (decide (r1 = r)) as [<- | Hne1];
    destruct (decide (r2 = r1)) as [-> | Hne2];
    repeat (destruct (decide (_ = _ :> string)); try congruence);
    try reflexivity.
  rewrite !list_filter_filter.
  rewrite (list_filter_iff
             (λ x, PendingOperation.id x ≠ oid1 ∧ PendingOperation.id x ≠ oid2)
             (λ x, PendingOperation.id x ≠ oid2 ∧ PendingOperation.id x ≠ oid1))
    by (intros x; tauto).
  reflexivity.
Qed.

Lemma getOperations_remove_all r ids ops :
  getOperations r (foldl (λ o oid, removeOperation oid r o) ops ids)
  = filter (λ op, PendingOperation.id op ∉ ids) (getOperations r ops).
Proof.
  revert ops. induction ids as [| oid ids IH]; intros ops; simpl.
  - symmetry. apply filter_all_keep. intros op _. apply not_elem_of_nil.
  - rewrite IH, getOperations_remove, decide_True by done.
    rewrite list_filter_filter. apply list_filter_iff. intros op.
    rewrite not_elem_of_cons. tauto.
Qed.

Lemma getOperations_remove_all_other r r' ids ops :
  r ≠ r' →
  getOperations r' (foldl (λ o oid, removeOperation oid r o) ops ids)
  = getOperations r' ops.
Proof.
  intros Hne. revert ops. induction ids as [| oid ids IH]; intros ops; simpl.
  - reflexivity.
  - rewrite IH, getOperations_remove, decide_False by done. reflexivity.
Qed.

Lemma no_empty_list_remove_all r ids ops :
  no_empty_list ops →
  no_empty_list (foldl (λ o oid, removeOperation oid r o) ops ids).
Proof.
  revert ops. induction ids as [| oid ids IH]; intros ops H; simpl.
  - exact H.
  - apply IH, no_empty_list_remove, H.
Qed.

(** X5: [clearOperations] does what ending every pending operation of
    the entity does, and afterwards the three accessors report nothing
    pending for it. *)
Theorem clearOperations_ends_all r ops :
  no_empty_list ops →
  clearOperations r ops
  = foldl (λ o oid, removeOperation oid r o) ops
          (PendingOperation.id <$> getOperations r ops)
  ∧ hasPendingOps r (clearOperations r ops) = false
  ∧ getPendingCount r (clearOperations r ops) = 0
  ∧ getLatestAction r (clearOperations r ops) = None.
Proof.
  intros Hinv. split_and!.
  - apply ops_eq_by_getOperations.
    + exact (no_empty_list_call ops (CallClear r) Hinv).
    + apply no_empty_list_remove_all, Hinv.
    + intros r'. rewrite getOperations_clear.
      destruct (decide (r = r')) as [<- | Hne].
      * rewrite getOperations_remove_all. symmetry.
        apply filter_all_drop. intros op Hop Hnot. apply Hnot.
        apply list_elem_of_fmap. exists op. done.
      * rewrite getOperations_remove_all_other by done. reflexivity.
  - rewrite hasPendingOps_getOperations, getOperations_clear.
    rewrite decide_True by done. reflexivity.
  - rewrite getPendingCount_getOperations, getOperations_clear.
    rewrite decide_True by done. reflexivity.
  - rewrite getLatestAction_last, getOperations_clear.
    rewrite decide_True by done. reflexivity.
Qed.

Lemma clearOperations_ends_all_witness :
  clearOperations "E" (run Sample.two_pending)
  = foldl (λ o oid, removeOperation oid "E" o) (run Sample.two_pending)
          (PendingOperation.id <$> getOperations "E" (run Sample.two_pending)).
Proof.
  apply (clearOperations_ends_all "E" (run Sample.two_pending)).
  apply no_empty_list_run.
Defined.




End TrackerMore.

(** ** More on the mock API *)

Section MockApiMore.
Import MockApi.
Variable mockRecords : list ContentRecord.t.
Implicit Types (store : list ContentRecord.t) (d : Draw).

Lemma initializeStore_idem store :
  initializeStore mockRecords (initializeStore mockRecords store)
  = initializeStore mockRecords store.
Proof.
  unfold initializeStore.
  destruct (bool_decide (length store = 0)) eqn:Hlen.
  - destruct (bool_decide (length mockRecords = 0)); reflexivity.
  - rewrite Hlen. reflexivity.
Qed.

Lemma initializeStore_nonempty store :
  store ≠ [] → initializeStore mockRecords store = store.
Proof.
  intros Hne. unfold initializeStore. rewrite bool_decide_eq_false_2; [done |].
  intros Hlen. apply length_zero_iff_nil in Hlen. contradiction.
Qed.

(** Replacing a record by one with the same id keeps the ids. *)
Lemma ids_insert_same store i (record new : ContentRecord.t) :
  store !! i = Some record →
  ContentRecord.id new = ContentRecord.id record →
  ContentRecord.id <$> <[i := new]> store = ContentRecord.id <$> store.
Proof.
  intros Hl Hid. rewrite list_fmap_insert. apply list_insert_id.
  rewrite list_lookup_fmap, Hl, Hid. reflexivity.
Qed.

Lemma updateRecord_resume_ids params d store :
  ContentRecord.id <$> (updateRecord_resume params d store).1
    = ContentRecord.id <$> store
  ∧ ∀ record, (updateRecord_resume params d store).2 = inr record →
              ContentRecord.id record = MutationParams.recordId params.
Proof.
  unfold updateRecord_resume.
  destruct (fail d); [split; [reflexivity | discriminate] |].
  destruct (findIndex_by_id _ store) as [i |] eqn:Hi;
    [| split; [reflexivity | discriminate]].
  apply findIndex_by_id_Some in Hi as (record & Hl & Hid & _).
  rewrite Hl.
  destruct (getNextStatus _ _) as [next |];
    [| split; [reflexivity | discriminate]].
  cbn [fst snd]. split.
  - apply (ids_insert_same store i record); [exact Hl | reflexivity].
  - intros r [= <-]. exact Hid.
Qed.

(** X7: whatever it answers, one backing update keeps the ids of the
    store in place.  On an error the store is unchanged; on success the
    first record with the requested id, and only it, is replaced by the
    committed record, whose status is the one the workflow gives. *)
Theorem updateRecord_resume_effect params d store :
  let res := updateRecord_resume params d store in
  ContentRecord.id <$> res.1 = ContentRecord.id <$> store
  ∧ match res.2 with
    | inl _ => res.1 = store
    | inr committed =>
        ∃ i record,
          list_find (λ r, ContentRecord.id r = MutationParams.recordId params)
                    store = Some (i, record)
          ∧ getNextStatus (ContentRecord.status record)
                          (MutationParams.action params)
            = Some (ContentRecord.status committed)
          ∧ ContentRecord.id committed = MutationParams.recordId params
          ∧ res.1 = <[i := committed]> store
    end.
Proof.
  unfold updateRecord_resume.
  destruct (fail d); [split; reflexivity |].
  destruct (findIndex_by_id _ store) as [i |] eqn:Hi; [| split; reflexivity].
  apply findIndex_by_id_Some in Hi as (record & Hl & Hid & Hfind).
  rewrite Hl.
  destruct (getNextStatus _ _) as [next |] eqn:Hnext; [| split; reflexivity].
  cbn [fst snd]. split.
  - apply (ids_insert_same store i record); [exact Hl | reflexivity].
  - exists i, record. split_and!; [exact Hfind | exact Hnext | exact Hid | done].
Qed.

(** X8: without the simulated failure, [optimisticUpdate] and
    [updateRecord] leave the same store and produce the same record;
    where one throws the other returns [null]. *)
Theorem optimisticUpdate_agrees_with_updateRecord params d store :
  fail d = false →
  optimisticUpdate mockRecords (MutationParams.recordId params)
    (MutationParams.action params) (MutationParams.blockReason params)
    (now d) store
  = ((updateRecord mockRecords params d store).1,
     match (updateRecord mockRecords params d store).2 with
     | inr record => Some record
     | inl _ => None
     end).
Proof.
  intros Hfail. unfold optimisticUpdate, updateRecord, updateRecord_resume.
  rewrite Hfail.
  destruct (findIndex_by_id _ _) as [i |]; [| reflexivity].
  destruct (_ !! i) as [record |]; [| reflexivity].
  destruct (getNextStatus _ _); reflexivity.
Qed.

Lemma find_by_id_list_find rid store :
  find_by_id rid store
  = snd <$> list_find (λ r, ContentRecord.id r = rid) store.
Proof.
  unfold find_by_id. induction store as [| r store IH]; [reflexivity |].
  cbn [find list_find]. rewrite IH.
  case_bool_decide; case_decide; try contradiction; simpl.
  - reflexivity.
  - destruct (list_find _ store) as [[j x] |]; reflexivity.
Qed.

Lemma list_find_insert_same store i (record new : ContentRecord.t) rid :
  list_find (λ r, ContentRecord.id r = rid) store = Some (i, record) →
  ContentRecord.id new = rid →
  list_find (λ r, ContentRecord.id r = rid) (<[i := new]> store)
  = Some (i, new).
Proof.
  intros Hfind Hid. apply list_find_Some in Hfind as (Hl & _ & Hfirst).
  apply list_find_Some. split_and!.
  - apply list_lookup_insert_eq. eapply lookup_lt_Some, Hl.
  - exact Hid.
  - intros j y Hj Hlt. rewrite list_lookup_insert_ne in Hj by lia.
    exact (Hfirst j y Hj Hlt).
Qed.

(** X9: [rollback] with the record [getRecord] returned before an
    [optimisticUpdate] puts the store back as it was. *)
Theorem rollback_undoes_optimisticUpdate
    rid action blockReason now store store' updated :
  optimisticUpdate mockRecords rid action blockReason now store
    = (store', Some updated) →
  ∃ previous,
    (getRecord mockRecords rid store).2 = Some previous
    ∧ rollback mockRecords rid previous store'
      = initializeStore mockRecords store.
Proof.
  unfold optimisticUpdate, getRecord, rollback. cbn [snd].
  set (store0 := initializeStore mockRecords store).
  destruct (findIndex_by_id rid store0) as [i |] eqn:Hi; [| discriminate].
  apply findIndex_by_id_Some in Hi as (record & Hl & Hid & Hfind).
  rewrite Hl. destruct (getNextStatus _ _) as [next |]; [| discriminate].
  intros [= <- <-]. exists record. split.
  - rewrite find_by_id_list_find, Hfind. reflexivity.
  - rewrite initializeStore_nonempty.
    2:{ intros Hnil. apply (f_equal length) in Hnil.
        rewrite length_insert in Hnil. apply lookup_lt_Some in Hl.
        simpl in Hnil. lia. }
    unfold findIndex_by_id.
    rewrite (list_find_insert_same store0 i record _ rid Hfind) by exact Hid.
    simpl. rewrite list_insert_insert_eq. apply list_insert_id, Hl.
Qed.

End MockApiMore.

Lemma optimisticUpdate_agrees_with_updateRecord_witness :
  MockApi.optimisticUpdate [] "E" approve None "2024-06-01T12:00:00.000Z"
                   [Sample.entity "E" InReview]
  = ([spread_update (Sample.entity "E" InReview) Approved
        "2024-06-01T12:00:00.000Z" None],
     Some (spread_update (Sample.entity "E" InReview) Approved
             "2024-06-01T12:00:00.000Z" None)).
Proof.
  etrans.
  - apply (optimisticUpdate_agrees_with_updateRecord [] Sample.approveE
             (Sample.ok_draw 300) [Sample.entity "E" InReview]).
    reflexivity.
  - reflexivity.
Defined.

Lemma rollback_undoes_optimisticUpdate_witness :
  ∃ previous,
    (MockApi.getRecord [] "E" [Sample.entity "E" InReview]).2 = Some previous
    ∧ MockApi.rollback [] "E" previous
        [spread_update (Sample.entity "E" InReview) Approved
           "2024-06-01T12:00:00.000Z" None]
      = MockApi.initializeStore [] [Sample.entity "E" InReview].
Proof.
  apply (rollback_undoes_optimisticUpdate [] "E" approve None
           "2024-06-01T12:00:00.000Z" [Sample.entity "E" InReview]
           [spread_update (Sample.entity "E" InReview) Approved
              "2024-06-01T12:00:00.000Z" None]
           (spread_update (Sample.entity "E" InReview) Approved
              "2024-06-01T12:00:00.000Z" None)).
  reflexivity.
Defined.

(** ** More on the batch update *)

Section BatchUpdateMore.
Import MockApi.
Variable mockRecords : list ContentRecord.t.
Implicit Types (store : list ContentRecord.t) (d : Draw)
  (params : BatchMutationParams.t) (results : BatchResult.t).

Lemma fire_insert_perm c l : fire_insert c l ≡ₚ c :: l.
Proof.
  induction l as [| x l IH]; simpl; [reflexivity |].
  case_bool_decide; [reflexivity |].
  rewrite IH. apply Permutation_swap.
Qed.

Lemma firing_order_perm calls : firing_order calls ≡ₚ calls.
Proof.
  unfold firing_order. induction calls as [| c calls IH]; simpl; [reflexivity |].
  rewrite fire_insert_perm, IH. reflexivity.
Qed.

Lemma initializeStore_repeat store (ids : list string) :
  foldl (λ s _, initializeStore mockRecords s)
        (initializeStore mockRecords store) ids
  = initializeStore mockRecords store.
Proof.
  induction ids as [| x ids IH]; simpl; [reflexivity |].
  rewrite initializeStore_idem. exact IH.
Qed.

Lemma calls_ids (draws : nat → Draw) (ids : list string) :
  (imap (λ i recordId, (recordId, draws i)) ids).*1 = ids.
Proof.
  revert draws. induction ids as [| x ids IH]; intros draws; [reflexivity |].
  rewrite imap_cons. simpl. f_equal. apply (IH (draws ∘ S)).
Qed.

(** The ids a result accounts for. *)
Lemma batch_step_accounts params store results c :
  let res := batch_step params (store, results) c in
  ContentRecord.id <$> res.1 = ContentRecord.id <$> store
  ∧ (ContentRecord.id <$> BatchResult.successful res.2)
      ++ (BatchResult.failed res.2).*1
    ≡ₚ ((ContentRecord.id <$> BatchResult.successful results)
          ++ (BatchResult.failed results).*1) ++ [c.1].
Proof.
  unfold batch_step.
  pose proof (updateRecord_resume_ids
                (MutationParams.mk c.1 (BatchMutationParams.action params)
                   (BatchMutationParams.blockReason params)) c.2 store)
    as [Hids Hout].
  destruct (updateRecord_resume _ _ _) as [store' [e | record]];
    cbn [fst snd] in *.
  - split; [exact Hids |].
    cbn [BatchResult.successful BatchResult.failed].
    rewrite fmap_app, !app_assoc. reflexivity.
  - split; [exact Hids |].
    pose proof (Hout record eq_refl) as Hid. simpl in Hid.
    cbn [BatchResult.successful BatchResult.failed].
    rewrite fmap_app. simpl. rewrite Hid.
    rewrite <- !app_assoc. apply Permutation_app_head.
    apply Permutation_app_comm.
Qed.

Lemma batch_fold_accounts params calls store results :
  let res := foldl (batch_step params) (store, results) calls in
  ContentRecord.id <$> res.1 = ContentRecord.id <$> store
  ∧ (ContentRecord.id <$> BatchResult.successful res.2)
      ++ (BatchResult.failed res.2).*1
    ≡ₚ ((ContentRecord.id <$> BatchResult.successful results)
          ++ (BatchResult.failed results).*1) ++ calls.*1.
Proof.
  revert store results.
  induction calls as [| c calls IH]; intros store results.
  - simpl. rewrite app_nil_r. split; reflexivity.
  - rewrite fmap_cons. cbn [foldl]. pose proof (batch_step_accounts params store results c) as [Hids Hacc].
    cbv zeta in Hids, Hacc.
    destruct (batch_step params (store, results) c) as [store1 results1].
    cbn [fst snd] in *.
    destruct (IH store1 results1) as [Hids' Hacc'].
    cbv zeta in Hids', Hacc'.
    split; [etrans; [exact Hids' | exact Hids] |].
    rewrite Hacc', Hacc, <- app_assoc. reflexivity.
Qed.

(** X10: a batch accounts for every requested id exactly once: the
    ids of [successful] together with those of [failed] are the
    requested ids up to order, whatever the latencies and failures; and
    the store keeps its ids in place. *)
Theorem batchUpdate_accounts_for_every_id params draws store :
  let res := batchUpdate mockRecords params draws store in
  (ContentRecord.id <$> BatchResult.successful res.2)
    ++ (BatchResult.failed res.2).*1
  ≡ₚ BatchMutationParams.recordIds params
  ∧ length (BatchResult.successful res.2) + length (BatchResult.failed res.2)
    = length (BatchMutationParams.recordIds params)
  ∧ ContentRecord.id <$> res.1
    = ContentRecord.id <$> initializeStore mockRecords store.
Proof.
  unfold batchUpdate. rewrite initializeStore_repeat.
  pose proof (batch_fold_accounts params
                (firing_order
                   (imap (λ i recordId, (recordId, draws i))
                         (BatchMutationParams.recordIds params)))
                (initializeStore mockRecords store) (BatchResult.mk [] []))
    as [Hids Hacc].
  cbv zeta in Hids, Hacc.
  assert ((firing_order
             (imap (λ i recordId, (recordId, draws i))
                   (BatchMutationParams.recordIds params))).*1
          ≡ₚ BatchMutationParams.recordIds params) as Hcalls.
  { rewrite firing_order_perm, calls_ids. reflexivity. }
  assert (∀ l : list string, ([] ++ []) ++ l = l) as Hnil by reflexivity.
  cbn [BatchResult.successful BatchResult.failed fmap list_fmap] in Hacc.
  rewrite Hnil in Hacc.
  split_and!; [etrans; [exact Hacc | exact Hcalls] | | exact Hids].
  apply Permutation_length in Hacc. apply Permutation_length in Hcalls.
  rewrite length_app, !length_fmap in Hacc. rewrite length_fmap in Hcalls.
  lia.
Qed.

Lemma batch_step_rejected params store results c :
  (fail c.2 = true
   ∨ ∀ r, r ∈ store → ContentRecord.id r = c.1 →
          getNextStatus (ContentRecord.status r)
                        (BatchMutationParams.action params) = None) →
  ∃ msg,
    batch_step params (store, results) c
    = (store,
       BatchResult.mk (BatchResult.successful results)
                      (BatchResult.failed results ++ [(c.1, msg)])).
Proof.
  intros Hrej. unfold batch_step, updateRecord_resume.
  cbn [MutationParams.recordId MutationParams.action].
  destruct (fail c.2) eqn:Hfail; [eexists; reflexivity |].
  destruct Hrej as [Hrej | Hrej]; [discriminate |].
  destruct (findIndex_by_id c.1 store) as [i |] eqn:Hi;
    [| eexists; reflexivity].
  apply findIndex_by_id_Some in Hi as (record & Hl & Hid & _).
  rewrite Hl. rewrite (Hrej record); [eexists; reflexivity | | exact Hid].
  apply list_elem_of_lookup. exists i. exact Hl.
Qed.

Lemma batch_fold_rejected params calls store results :
  Forall (λ c, fail c.2 = true
               ∨ ∀ r, r ∈ store → ContentRecord.id r = c.1 →
                      getNextStatus (ContentRecord.status r)
                                    (BatchMutationParams.action params) = None)
         calls →
  ∃ results',
    foldl (batch_step params) (store, results) calls = (store, results')
    ∧ BatchResult.successful results' = BatchResult.successful results
    ∧ length (BatchResult.failed results')
      = length (BatchResult.failed results) + length calls.
Proof.
  intros Hall. revert results.
  induction Hall as [| c calls Hc _ IH]; intros results.
  - exists results. simpl. split_and!; [reflexivity | reflexivity | lia].
  - destruct (batch_step_rejected params store results c Hc) as [msg Hstep].
    cbn [foldl]. rewrite Hstep.
    destruct (IH (BatchResult.mk (BatchResult.successful results)
                    (BatchResult.failed results ++ [(c.1, msg)])))
      as (results' & Hfold & Hsucc & Hlen).
    exists results'. split_and!; [exact Hfold | exact Hsucc |].
    rewrite Hlen. cbn [BatchResult.failed]. rewrite length_app. simpl. lia.
Qed.

(** X11: when every requested call either hits the simulated failure
    or asks for an action the workflow rejects for the records with
    that id, the batch changes nothing in the store, [successful] is
    empty, every id is in [failed], and the toast of [onSuccess] is the
    error one that names the status the action requires. *)
Theorem batchUpdate_all_rejected params draws store :
  BatchMutationParams.recordIds params ≠ [] →
  (∀ i rid,
     BatchMutationParams.recordIds params !! i = Some rid →
     fail (draws i) = true
     ∨ ∀ r, r ∈ initializeStore mockRecords store →
            ContentRecord.id r = rid →
            getNextStatus (ContentRecord.status r)
                          (BatchMutationParams.action params) = None) →
  let res := batchUpdate mockRecords params draws store in
  let action := ActionType_str (BatchMutationParams.action params) in
  res.1 = initializeStore mockRecords store
  ∧ BatchResult.successful res.2 = []
  ∧ length (BatchResult.failed res.2)
    = length (BatchMutationParams.recordIds params)
  ∧ BatchMutation.summary params res.2
    = Some (Toast.mk ToastError ("Cannot " +:+ action)
              (action +:+ " requires records in " +:+ dquote
               +:+ BatchMutation.actionRequires
                     (BatchMutationParams.action params)
               +:+ dquote +:+ " status.")).
Proof.
  intros Hne Hrej res action. subst res.
  unfold batchUpdate. rewrite initializeStore_repeat.
  set (store0 := initializeStore mockRecords store) in *.
  set (calls := imap _ _).
  assert (Forall (λ c, fail c.2 = true
                       ∨ ∀ r, r ∈ store0 → ContentRecord.id r = c.1 →
                              getNextStatus (ContentRecord.status r)
                                (BatchMutationParams.action params) = None)
                 (firing_order calls)) as Hall.
  { rewrite firing_order_perm. apply Forall_lookup. intros i c Hc.
    subst calls. rewrite list_lookup_imap in Hc.
    destruct (BatchMutationParams.recordIds params !! i) as [rid |] eqn:Hi;
      [| discriminate].
    injection Hc as <-. exact (Hrej i rid Hi). }
  destruct (batch_fold_rejected params _ store0 (BatchResult.mk [] []) Hall)
    as (results' & -> & Hsucc & Hlen).
  cbn [fst snd BatchResult.successful BatchResult.failed] in *.
  assert (length (firing_order calls)
          = length (BatchMutationParams.recordIds params)) as Hn.
  { rewrite (Permutation_length (firing_order_perm calls)).
    subst calls. apply length_imap. }
  rewrite Hn in Hlen. simpl in Hlen.
  split_and!; [reflexivity | exact Hsucc | exact Hlen |].
  unfold BatchMutation.summary. rewrite Hsucc, Hlen. simpl length.
  destruct (BatchMutationParams.recordIds params) as [| x l]; [done |].
  reflexivity.
Qed.

End BatchUpdateMore.

Lemma batchUpdate_all_rejected_witness :
  let store := [Sample.entity "X" Queued; Sample.entity "Y" Queued] in
  let params := BatchMutationParams.mk ["X"; "Y"] publish None in
  let res := MockApi.batchUpdate [] params (λ _, Sample.ok_draw 300) store in
  res.1 = store
  ∧ BatchResult.successful res.2 = []
  ∧ length (BatchResult.failed res.2) = 2
  ∧ Toast.kind <$> BatchMutation.summary params res.2 = Some ToastError.
Proof.
  intros store params res.
  destruct (batchUpdate_all_rejected [] params (λ _, Sample.ok_draw 300) store)
    as (Hstore & Hsucc & Hlen & Htoast).
  - discriminate.
  - intros i rid _. right. intros r Hr _.
    apply elem_of_cons in Hr as [-> | Hr]; [reflexivity |].
    apply elem_of_cons in Hr as [-> | Hr]; [reflexivity |].
    apply elem_of_nil in Hr. contradiction.
  - split_and!; [exact Hstore | exact Hsucc | exact Hlen |].
    fold res in Htoast. rewrite Htoast. reflexivity.
Defined.

(** ** Reading the store: statistics, filters, order *)

Section ReadsMore.
Import MockApi.
Variable mockRecords : list ContentRecord.t.
Variable toLowerCase : string → string.
Variable includes : string → string → bool.
Variable getTime : string → Z.
Implicit Types (store records : list ContentRecord.t).

Lemma fold_bump records (acc : Status → nat) s :
  foldl (λ byStatus r, bump byStatus (ContentRecord.status r)) acc records s
  = acc s + length (filter (λ r, ContentRecord.status r = s) records).
Proof.
  revert acc. induction records as [| r records IH]; intros acc; simpl.
  - lia.
  - rewrite IH. unfold bump. rewrite filter_cons.
    case_bool_decide as Hs; destruct (decide _) as [Hd | Hd];
      simpl; try lia; congruence.
Qed.

Lemma status_classes_partition records :
  length (filter (λ r, ContentRecord.status r = Queued) records)
  + length (filter (λ r, ContentRecord.status r = InReview) records)
  + length (filter (λ r, ContentRecord.status r = Approved) records)
  + length (filter (λ r, ContentRecord.status r = Published) records)
  + length (filter (λ r, ContentRecord.status r = Blocked) records)
  = length records.
Proof.
  induction records as [| r records IH]; [reflexivity |].
  rewrite !filter_cons.
  destruct (ContentRecord.status r) eqn:Hs; simpl;
    repeat (destruct (decide _) as [Hd | Hd]; try discriminate Hd;
            try (exfalso; apply Hd; reflexivity));
    simpl; lia.
Qed.

(** X12: the counts [getStats] reports per status add up to its
    total, which is the size of the store, and each count is the number
    of records in that status. *)
Theorem getStats_counts_add_up store :
  let stats := (getStats mockRecords store).2 in
  let byStatus := stats.2 in
  stats.1 = length (initializeStore mockRecords store)
  ∧ (∀ s, byStatus s
          = length (filter (λ r, ContentRecord.status r = s)
                           (initializeStore mockRecords store)))
  ∧ byStatus Queued + byStatus InReview + byStatus Approved
    + byStatus Published + byStatus Blocked = stats.1.
Proof.
  unfold getStats. cbn [fst snd]. split_and!.
  - reflexivity.
  - intros s. rewrite fold_bump. reflexivity.
  - rewrite !fold_bump. simpl. apply status_classes_partition.
Qed.

Lemma accepts_filter {A} `{EqDecision A} (f : ContentRecord.t → A)
    (o : option (list A)) records :
  match o with
  | Some l =>
      if bool_decide (length l ≠ 0)
      then filter (λ r, f r ∈ l) records else records
  | None => records
  end
  = filter (λ r, accepts o (f r) = true) records.
Proof.
  destruct o as [l |]; simpl.
  - case_bool_decide as Hlen.
    + apply list_filter_iff. intros r.
      rewrite bool_decide_eq_false_2 by exact Hlen. simpl.
      rewrite bool_decide_eq_true. reflexivity.
    + symmetry. apply filter_all_keep. intros r _.
      rewrite bool_decide_eq_true_2; [reflexivity |].
      destruct (decide (length l = 0)); [done | contradiction].
  - symmetry. apply filter_all_keep. reflexivity.
Qed.

Lemma search_filter (o : option string) records :
  match o with
  | Some q =>
      if bool_decide (q ≠ "")
      then filter (λ r, includes (toLowerCase (ContentRecord.prompt r))
                                 (toLowerCase q) = true) records
      else records
  | None => records
  end
  = filter (λ r, match o with
                 | Some q =>
                     bool_decide (q = "")
                     || includes (toLowerCase (ContentRecord.prompt r))
                                 (toLowerCase q)
                 | None => true
                 end = true) records.
Proof.
  destruct o as [q |].
  - case_bool_decide as Hq.
    + apply list_filter_iff. intros r.
      rewrite bool_decide_eq_false_2 by exact Hq. reflexivity.
    + symmetry. apply filter_all_keep. intros r _.
      rewrite bool_decide_eq_true_2; [reflexivity |].
      destruct (decide (q = "")); [done | contradiction].
  - symmetry. apply filter_all_keep. reflexivity.
Qed.

Lemma applyFilters_passes records filters :
  applyFilters toLowerCase includes records filters
  = filter (λ r, passes toLowerCase includes filters r = true) records.
Proof.
  unfold applyFilters.
  rewrite (accepts_filter ContentRecord.status).
  rewrite (accepts_filter ContentRecord.engine).
  rewrite (accepts_filter ContentRecord.impact).
  rewrite search_filter.
  rewrite !list_filter_filter.
  apply list_filter_iff. intros r. unfold passes.
  rewrite !andb_true_iff. tauto.
Qed.

(** X13: [applyFilters] keeps, in their order, exactly the records
    that every set, non-empty filter accepts; filtering its result
    again changes nothing. *)
Theorem applyFilters_keeps_what_passes records filters :
  let res := applyFilters toLowerCase includes records filters in
  res `sublist_of` records
  ∧ (∀ r, r ∈ res
          ↔ r ∈ records ∧ passes toLowerCase includes filters r = true)
  ∧ applyFilters toLowerCase includes res filters = res.
Proof.
  intros res. subst res. rewrite !applyFilters_passes. split_and!.
  - apply sublist_filter.
  - intros r. rewrite list_elem_of_filter. tauto.
  - apply filter_all_keep. intros r Hr.
    apply list_elem_of_filter in Hr as [Hp _]. exact Hp.
Qed.

(** X14: filters that are unset, empty arrays or the empty string
    filter nothing: with no active filter in the UI store, and after
    [clearFilters], the list query is handed every record. *)
Theorem no_active_filter_returns_all records (ui : UIStore.t) :
  applyFilters toLowerCase includes records None = records
  ∧ applyFilters toLowerCase includes records
      (Some (RecordFilters.mk (Some []) (Some []) (Some []) (Some "")))
    = records
  ∧ UIStore.hasActiveFilters (UIStore.clearFilters ui) = false
  ∧ (UIStore.hasActiveFilters ui = false →
     applyFilters toLowerCase includes records (Some (useRecords_filters ui))
     = records).
Proof.
  split_and!; try reflexivity.
  intros Hnone. unfold UIStore.hasActiveFilters in Hnone.
  apply orb_false_iff in Hnone as [Hnone Hq].
  apply orb_false_iff in Hnone as [Hnone Hi].
  apply orb_false_iff in Hnone as [Hs He].
  apply bool_decide_eq_false in Hs, He, Hi, Hq.
  unfold useRecords_filters.
  rewrite !(bool_decide_eq_false_2 (0 < _)) by assumption.
  destruct (UIStore.searchQuery ui) as [| ch q]; [reflexivity |].
  simpl in Hq. lia.
Qed.

Lemma sort_insert_perm a records : sort_insert getTime a records ≡ₚ a :: records.
Proof.
  induction records as [| b l IH]; simpl; [reflexivity |].
  case_bool_decide; [reflexivity |].
  rewrite IH. apply Permutation_swap.
Qed.

Lemma sortRecords_perm records : sortRecords getTime records ≡ₚ records.
Proof.
  unfold sortRecords.
  induction records as [| a l IH]; simpl; [reflexivity |].
  rewrite sort_insert_perm, IH. reflexivity.
Qed.

Lemma sort_insert_sorted a records :
  StronglySorted
    (λ x y, (getTime (ContentRecord.updatedAt y)
             ≤ getTime (ContentRecord.updatedAt x))%Z) records →
  StronglySorted
    (λ x y, (getTime (ContentRecord.updatedAt y)
             ≤ getTime (ContentRecord.updatedAt x))%Z)
    (sort_insert getTime a records).
Proof.
  induction 1 as [| b l Hsorted IH Hall]; simpl.
  - repeat constructor.
  - case_bool_decide as Hcmp.
    + constructor; [constructor; assumption |].
      constructor; [lia |].
      eapply Forall_impl; [exact Hall |]. simpl. intros y Hy. lia.
    + constructor; [exact IH |].
      rewrite sort_insert_perm. constructor; [lia | exact Hall].
Qed.

Lemma sort_insert_class a records (t0 : Z) :
  filter (λ r, getTime (ContentRecord.updatedAt r) = t0)
         (sort_insert getTime a records)
  = filter (λ r, getTime (ContentRecord.updatedAt r) = t0) (a :: records).
Proof.
  induction records as [| b l IH]; simpl; [reflexivity |].
  case_bool_decide as Hcmp; [reflexivity |].
  rewrite filter_cons, IH, !filter_cons.
  repeat case_decide; try reflexivity. lia.
Qed.

(** X15: the list query returns the records [applyFilters] keeps, most
    recently updated first; records with the same time keep the order
    they have in the store. *)
Theorem getRecords_sorted filters store :
  let res := getRecords mockRecords toLowerCase includes getTime filters store in
  let kept :=
    applyFilters toLowerCase includes (initializeStore mockRecords store)
                 filters in
  res.1 = initializeStore mockRecords store
  ∧ res.2 ≡ₚ kept
  ∧ StronglySorted
      (λ x y, (getTime (ContentRecord.updatedAt y)
               ≤ getTime (ContentRecord.updatedAt x))%Z) res.2
  ∧ ∀ t0 : Z,
      filter (λ r, getTime (ContentRecord.updatedAt r) = t0) res.2
      = filter (λ r, getTime (ContentRecord.updatedAt r) = t0) kept.
Proof.
  unfold getRecords. cbn [fst snd].
  set (kept := applyFilters _ _ _ _). split_and!.
  - reflexivity.
  - apply sortRecords_perm.
  - unfold sortRecords. induction kept as [| a l IH]; simpl.
    + constructor.
    + apply sort_insert_sorted, IH.
  - intros t0. unfold sortRecords. induction kept as [| a l IH]; simpl.
    + reflexivity.
    + rewrite sort_insert_class, !filter_cons, IH. reflexivity.
Qed.

End ReadsMore.

(** ** More on the single-entity mutation *)

Section RecordMutationMore.
Import RecordMutation.
Implicit Types (v : MutationParams.t) (c : Client.t) (oid rid : string)
  (q : list (option (list ContentRecord.t))).

(** What an updater that keeps ids and leaves the other entities
    alone does to the caches. *)
Lemma setQueriesData_frame (f : ContentRecord.t → ContentRecord.t) rid q :
  (∀ r, ContentRecord.id (f r) = ContentRecord.id r) →
  (∀ r, ContentRecord.id r ≠ rid → f r = r) →
  map (option_map (map ContentRecord.id)) (setQueriesData f q)
    = map (option_map (map ContentRecord.id)) q
  ∧ map (option_map (filter (λ r, ContentRecord.id r ≠ rid)))
        (setQueriesData f q)
    = map (option_map (filter (λ r, ContentRecord.id r ≠ rid))) q.
Proof.
  intros Hid Hother. unfold setQueriesData. rewrite !map_map. split.
  - apply map_ext. intros [d |]; [| reflexivity]. simpl. f_equal.
    rewrite map_map. apply map_ext. exact Hid.
  - apply map_ext. intros [d |]; [| reflexivity]. simpl. f_equal.
    induction d as [| r d IH]; [reflexivity |].
    simpl. rewrite !filter_cons, IH, Hid.
    case_decide; [rewrite Hother by assumption |]; reflexivity.
Qed.

Lemma optimistic_other v next nowIso r :
  ContentRecord.id r ≠ MutationParams.recordId v →
  optimistic v next nowIso r = r.
Proof.
  intros Hne. unfold optimistic. rewrite bool_decide_eq_false_2 by exact Hne.
  reflexivity.
Qed.

Lemma restore_other v prev r :
  ContentRecord.id r ≠ MutationParams.recordId v → restore v prev r = r.
Proof.
  intros Hne. unfold restore. rewrite bool_decide_eq_false_2 by exact Hne.
  reflexivity.
Qed.

Lemma settle_operations v ctx outcome c :
  Client.operations (settle v ctx outcome c)
  = if bool_decide (Context.operationId ctx ≠ "")
    then Tracker.removeOperation (Context.operationId ctx)
           (MutationParams.recordId v) (Client.operations c)
    else Client.operations c.
Proof.
  destruct outcome; simpl; unfold onError, onSuccess;
    case_bool_decide; reflexivity.
Qed.

Lemma settle_queries v ctx outcome c :
  Client.queries (settle v ctx outcome c)
  = match outcome with
    | inr _ => Client.queries c
    | inl _ => setQueriesData (restore v (Context.previousRecord ctx))
                              (Client.queries c)
    end.
Proof.
  destruct outcome; simpl; unfold onError, onSuccess;
    case_bool_decide; reflexivity.
Qed.

(** X16: a mutation touches only its entity.  The optimistic write of
    a begun mutation and the settlement of it, commit or rollback, keep
    every cached list's ids in place and leave every record with
    another id as it is; the pending operations of other entities are
    not touched either. *)
Theorem mutation_touches_only_its_entity
    v oid nowMs nowIso c c1 ctx outcome c2 :
  begin v oid nowMs nowIso c = (c1, inr ctx) →
  let rid := MutationParams.recordId v in
  let ids := map (option_map (map ContentRecord.id)) in
  let others :=
    map (option_map (filter (λ r, ContentRecord.id r ≠ rid))) in
  ids (Client.queries c1) = ids (Client.queries c)
  ∧ others (Client.queries c1) = others (Client.queries c)
  ∧ ids (Client.queries (settle v ctx outcome c2)) = ids (Client.queries c2)
  ∧ others (Client.queries (settle v ctx outcome c2))
    = others (Client.queries c2)
  ∧ ∀ r', r' ≠ rid →
      Client.operations c1 !! r' = Client.operations c !! r'
      ∧ Client.operations (settle v ctx outcome c2) !! r'
        = Client.operations c2 !! r'.
Proof.
  intros Hbegin rid ids others.
  destruct (begin_inr_inv _ _ _ _ _ _ _ Hbegin) as (next & Hfind & Hnext & Hoid).
  destruct (find_in_caches_Some _ _ _ Hfind) as [Hprev _].
  rewrite (onMutate_legal _ _ _ _ _ _ _ Hfind Hnext) in Hbegin.
  injection Hbegin as <- _.
  cbn [Client.queries Client.operations].
  destruct (setQueriesData_frame (optimistic v next nowIso) rid
              (Client.queries c)) as [Hids Hoth].
  { intros r. apply optimistic_id. }
  { intros r. apply optimistic_other. }
  assert (ids (Client.queries (settle v ctx outcome c2))
            = ids (Client.queries c2)
          ∧ others (Client.queries (settle v ctx outcome c2))
            = others (Client.queries c2)) as [Hids2 Hoth2].
  { rewrite settle_queries. destruct outcome; [| split; reflexivity].
    apply setQueriesData_frame.
    - intros r. apply restore_id. exact Hprev.
    - intros r. apply restore_other. }
  split_and!; [exact Hids | exact Hoth | exact Hids2 | exact Hoth2 |].
  intros r' Hne. split.
  - unfold Tracker.addOperation. simpl. apply lookup_insert_ne.
    intros Heq. apply Hne. symmetry. exact Heq.
  - rewrite settle_operations. case_bool_decide; [| reflexivity].
    apply removeOperation_other. exact Hne.
Qed.

Lemma mutation_touches_only_its_entity_witness :
  let c := Sample.client [Sample.entity "E" InReview; Sample.entity "F" Queued] in
  let c1 := (begin Sample.approveE "op1" 10 "2024-06-01T12:00:00.000Z" c).1 in
  map (option_map (filter (λ r, ContentRecord.id r ≠ "E"))) (Client.queries c1)
  = [Some [Sample.entity "F" Queued]].
Proof.
  intros c c1.
  destruct (mutation_touches_only_its_entity Sample.approveE "op1" 10
              "2024-06-01T12:00:00.000Z" c c1
              (Context.mk (Sample.entity "E" InReview) "op1")
              (inl Sample.networkError) c1 eq_refl)
    as (_ & Hothers & _).
  etrans; [exact Hothers | reflexivity].
Defined.

Lemma setQueriesData_undo (f g : ContentRecord.t → ContentRecord.t) q :
  (∀ data r, Some data ∈ q → r ∈ data → g (f r) = r) →
  setQueriesData g (setQueriesData f q) = q.
Proof.
  intros Hundo. unfold setQueriesData. rewrite map_map.
  rewrite <- (map_id q) at 2. apply map_ext_in.
  intros [d |] Hd; [| reflexivity]. simpl. f_equal.
  rewrite map_map. rewrite <- (map_id d) at 2. apply map_ext_in.
  intros r Hr. apply (Hundo d r); apply list_elem_of_In; assumption.
Qed.

Lemma add_remove_fresh r a s oid now (ops : Tracker.Ops) :
  Tracker.no_empty_list ops →
  (∀ op, op ∈ Tracker.getOperations r ops → PendingOperation.id op ≠ oid) →
  Tracker.removeOperation oid r (Tracker.addOperation r a s oid now ops).2
  = ops.
Proof.
  intros Hinv Hfresh. apply ops_eq_by_getOperations.
  - apply no_empty_list_remove, no_empty_list_add, Hinv.
  - exact Hinv.
  - intros r'. rewrite getOperations_remove, getOperations_add.
    destruct (decide (r = r')) as [<- | Hne]; [| reflexivity].
    rewrite filter_app, (filter_all_keep _ _ Hfresh).
    rewrite filter_cons_False by (simpl; intros Hk; apply Hk; reflexivity).
    apply app_nil_r.
Qed.

(** X17: a mutation whose backing call fails, with nothing else
    happening in between, leaves the cache and the pending-operation
    store exactly as they were and adds one error toast; the backing
    store is only initialised.  The cached copies of the record must
    agree, since the rollback writes the first one over all of them. *)
Theorem failed_mutate_restores_client
    mockRecords v oid nowMs nowIso d c store prev next :
  MockApi.fail d = true →
  oid ≠ "" →
  Tracker.no_empty_list (Client.operations c) →
  (∀ op, op ∈ Tracker.getOperations (MutationParams.recordId v)
                                    (Client.operations c) →
         PendingOperation.id op ≠ oid) →
  find_in_caches (MutationParams.recordId v) (Client.queries c) = Some prev →
  getNextStatus (ContentRecord.status prev) (MutationParams.action v)
    = Some next →
  (∀ data r, Some data ∈ Client.queries c → r ∈ data →
             ContentRecord.id r = MutationParams.recordId v → r = prev) →
  ∃ c',
    mutate mockRecords v oid nowMs nowIso d c store
    = (c', MockApi.initializeStore mockRecords store,
       inl (ApiError "Network error: Request failed. Please try again."
                     "NETWORK_ERROR"))
    ∧ Client.queries c' = Client.queries c
    ∧ Client.operations c' = Client.operations c
    ∧ Client.toasts c'
      = Client.toasts c
        ++ [Toast.mk ToastError
              ("Failed to " +:+ ActionType_str (MutationParams.action v))
              "The action could not be completed. Please try again."].
Proof.
  intros Hfail Hoid Hinv Hfresh Hfind Hnext Hsame.
  unfold mutate. rewrite (onMutate_legal _ _ _ _ _ _ _ Hfind Hnext).
  unfold MockApi.updateRecord, MockApi.updateRecord_resume. rewrite Hfail.
  eexists. split; [reflexivity |].
  cbn [settle]. set (ctx := Context.mk prev oid).
  destruct (onError_context v ctx
              (Client.mk
                 (setQueriesData (optimistic v next nowIso) (Client.queries c))
                 (Tracker.addOperation (MutationParams.recordId v)
                    (MutationParams.action v) (ContentRecord.status prev)
                    oid nowMs (Client.operations c)).2
                 (Client.toasts c)) Hoid) as [Hq Ho].
  split_and!.
  - rewrite Hq. cbn [Client.queries Context.previousRecord ctx].
    apply setQueriesData_undo. intros data r Hdata Hr.
    unfold restore, optimistic.
    destruct (decide (ContentRecord.id r = MutationParams.recordId v))
      as [Hid | Hid].
    + rewrite (bool_decide_eq_true_2 _ Hid). simpl.
      rewrite (bool_decide_eq_true_2 _ Hid). symmetry.
      exact (Hsame data r Hdata Hr Hid).
    + rewrite !(bool_decide_eq_false_2 _ Hid). reflexivity.
  - rewrite Ho. cbn [Client.operations Context.operationId ctx].
    apply add_remove_fresh; assumption.
  - unfold onError. cbn [Context.operationId ctx].
    rewrite bool_decide_eq_true_2 by exact Hoid. reflexivity.
Qed.

Lemma failed_mutate_restores_client_witness :
  let c := Sample.client [Sample.entity "E" InReview; Sample.entity "F" Queued] in
  ∃ c',
    mutate [] Sample.approveE "op1" 10 "2024-06-01T12:00:00.000Z"
           (MockApi.mkDraw 300 true "2024-06-01T12:00:00.000Z")
           c [Sample.entity "E" InReview]
    = (c', [Sample.entity "E" InReview], inl Sample.networkError)
    ∧ Client.queries c' = Client.queries c
    ∧ Client.operations c' = Client.operations c.
Proof.
  intros c.
  destruct (failed_mutate_restores_client [] Sample.approveE "op1" 10
              "2024-06-01T12:00:00.000Z"
              (MockApi.mkDraw 300 true "2024-06-01T12:00:00.000Z")
              c [Sample.entity "E" InReview]
              (Sample.entity "E" InReview) Approved)
    as (c' & Hm & Hq & Ho & _).
  - reflexivity.
  - discriminate.
  - intros r. simpl. rewrite lookup_empty. discriminate.
  - intros op Hop. simpl in Hop. unfold Tracker.getOperations in Hop.
    rewrite lookup_empty in Hop. apply elem_of_nil in Hop. contradiction.
  - reflexivity.
  - reflexivity.
  - intros data r Hdata Hr Hid. simpl in Hdata.
    apply list_elem_of_singleton in Hdata. injection Hdata as ->.
    apply elem_of_cons in Hr as [-> | Hr]; [reflexivity |].
    apply list_elem_of_singleton in Hr. subst r. discriminate Hid.
  - exists c'. split_and!; [exact Hm | exact Hq | exact Ho].
Defined.

(** X18: a mutation whose backing call succeeds, with nothing else
    happening in between and the store holding the record in the status
    the cache shows: the committed record and the cached record end in
    the status the workflow gives, the store holds the committed record
    in place of the old one, and the pending-operation store is as it
    was. *)
Theorem successful_mutate_in_isolation
    mockRecords v oid nowMs nowIso d c store prev next i stored :
  MockApi.fail d = false →
  oid ≠ "" →
  Tracker.no_empty_list (Client.operations c) →
  (∀ op, op ∈ Tracker.getOperations (MutationParams.recordId v)
                                    (Client.operations c) →
         PendingOperation.id op ≠ oid) →
  find_in_caches (MutationParams.recordId v) (Client.queries c) = Some prev →
  getNextStatus (ContentRecord.status prev) (MutationParams.action v)
    = Some next →
  list_find (λ r, ContentRecord.id r = MutationParams.recordId v)
            (MockApi.initializeStore mockRecords store) = Some (i, stored) →
  ContentRecord.status stored = ContentRecord.status prev →
  ∃ c' committed,
    mutate mockRecords v oid nowMs nowIso d c store
    = (c', <[i := committed]> (MockApi.initializeStore mockRecords store),
       inr committed)
    ∧ ContentRecord.status committed = next
    ∧ ContentRecord.status
        <$> find_in_caches (MutationParams.recordId v) (Client.queries c')
      = Some next
    ∧ Client.operations c' = Client.operations c.
Proof.
  intros Hfail Hoid Hinv Hfresh Hfind Hnext Hstored Hstatus.
  unfold mutate. rewrite (onMutate_legal _ _ _ _ _ _ _ Hfind Hnext).
  unfold MockApi.updateRecord.
  rewrite <- Hstatus in Hnext.
  rewrite (updateRecord_resume_legal v d _ i stored next Hfail Hstored Hnext).
  eexists _, _. split; [reflexivity |]. cbn [settle].
  set (ctx := Context.mk prev oid).
  set (c1 := Client.mk _ _ _).
  destruct (onSuccess_context v ctx c1 Hoid) as [Hq Ho].
  split_and!.
  - reflexivity.
  - rewrite Hq. subst c1. cbn [Client.queries].
    rewrite find_in_caches_setQueriesData by (intros r; apply optimistic_id).
    rewrite Hfind. simpl. f_equal. unfold optimistic.
    apply find_in_caches_Some in Hfind as [Hid _].
    rewrite bool_decide_eq_true_2 by exact Hid. reflexivity.
  - rewrite Ho. subst c1 ctx. cbn [Client.operations Context.operationId].
    apply add_remove_fresh; assumption.
Qed.

Lemma successful_mutate_in_isolation_witness :
  let c := Sample.client [Sample.entity "E" InReview] in
  ∃ c' committed,
    mutate [] Sample.approveE "op1" 10 "2024-06-01T12:00:00.000Z"
           (Sample.ok_draw 300) c [Sample.entity "E" InReview]
    = (c', <[0 := committed]> [Sample.entity "E" InReview], inr committed)
    ∧ ContentRecord.status committed = Approved
    ∧ ContentRecord.status <$> find_in_caches "E" (Client.queries c')
      = Some Approved
    ∧ Client.operations c' = Client.operations c.
Proof.
  intros c.
  apply (successful_mutate_in_isolation [] Sample.approveE "op1" 10
           "2024-06-01T12:00:00.000Z" (Sample.ok_draw 300) c
           [Sample.entity "E" InReview] (Sample.entity "E" InReview) Approved
           0 (Sample.entity "E" InReview)).
  - reflexivity.
  - discriminate.
  - intros r. simpl. rewrite lookup_empty. discriminate.
  - intros op Hop. simpl in Hop. unfold Tracker.getOperations in Hop.
    rewrite lookup_empty in Hop. apply elem_of_nil in Hop. contradiction.
  - reflexivity.
  - reflexivity.
  - reflexivity.
  - reflexivity.
Defined.

Lemma removeOperation_swap oid1 r1 oid2 r2 (ops : Tracker.Ops) r :
  Tracker.removeOperation oid1 r1 (Tracker.removeOperation oid2 r2 ops) !! r
  = Tracker.removeOperation oid2 r2 (Tracker.removeOperation oid1 r1 ops) !! r.
Proof.
  rewrite !removeOperation_lookup. rewrite !getOperations_remove.
  destruct (decide (r1 = r)) as [<- | Hne1];
    destruct (decide (r2 = r1)) as [-> | Hne2];
    repeat (destruct (decide (_ = _ :> string)); try congruence);
    try reflexivity.
  rewrite !list_filter_filter.
  rewrite (list_filter_iff
             (λ x, PendingOperation.id x ≠ oid1 ∧ PendingOperation.id x ≠ oid2)
             (λ x, PendingOperation.id x ≠ oid2 ∧ PendingOperation.id x ≠ oid1))
    by (intros x; tauto).
  reflexivity.
Qed.

(** X19: two mutations may settle in either order: whatever their
    outcomes, the pending-operation store is the same afterwards, and
    when both commit the cache is the one they found. *)
Theorem settlement_order_is_irrelevant_for_tracker
    vA ctxA outA vB ctxB outB c (dataA dataB : ContentRecord.t) :
  Client.operations (settle vA ctxA outA (settle vB ctxB outB c))
  = Client.operations (settle vB ctxB outB (settle vA ctxA outA c))
  ∧ Client.queries (settle vA ctxA (inr dataA) (settle vB ctxB (inr dataB) c))
    = Client.queries c.
Proof.
  split.
  - rewrite !settle_operations.
    repeat case_bool_decide; try reflexivity.
    apply map_eq. intros r. apply removeOperation_swap.
  - rewrite !settle_queries. reflexivity.
Qed.

(** X20: two overlapping mutations of one record, [approve] then
    [block], where the backing call of [approve] fails and that of
    [block] succeeds: in either order of settlement the cache ends with
    the record [approve] began with, in [InReview], while the backing
    store holds it [Blocked]. *)
Theorem late_failure_overwrites_later_action
    mockRecords (e : ContentRecord.t) c0 store i stored
    oidA oidB tA tB isoA isoB dA dB reason :
  ContentRecord.status e = InReview →
  find_in_caches (ContentRecord.id e) (Client.queries c0) = Some e →
  list_find (λ r, ContentRecord.id r = ContentRecord.id e) store
    = Some (i, stored) →
  ContentRecord.status stored = InReview →
  MockApi.fail dA = true →
  MockApi.fail dB = false →
  let E := ContentRecord.id e in
  let A := MutationParams.mk E approve None in
  let B := MutationParams.mk E block (Some reason) in
  let failure :=
    ApiError "Network error: Request failed. Please try again."
             "NETWORK_ERROR" in
  ∃ c1 ctxA c2 ctxB committed,
    begin A oidA tA isoA c0 = (c1, inr ctxA)
    ∧ begin B oidB tB isoB c1 = (c2, inr ctxB)
    ∧ MockApi.updateRecord mockRecords A dA store = (store, inl failure)
    ∧ MockApi.updateRecord mockRecords B dB store
      = (<[i := committed]> store, inr committed)
    ∧ ContentRecord.status committed = Blocked
    ∧ find_in_caches E
        (Client.queries
           (settle B ctxB (inr committed) (settle A ctxA (inl failure) c2)))
      = Some e
    ∧ find_in_caches E
        (Client.queries
           (settle A ctxA (inl failure) (settle B ctxB (inr committed) c2)))
      = Some e.
Proof.
  intros Hst Hfind0 Hstored Hsrv HfA HfB E A B failure.
  assert (MockApi.initializeStore mockRecords store = store) as Hinit.
  { apply initializeStore_nonempty. intros ->. discriminate Hstored. }
  assert (getNextStatus (ContentRecord.status e) (MutationParams.action A)
          = Some Approved) as HnextA by (rewrite Hst; reflexivity).
  destruct (begin_legal_effect A oidA tA isoA c0 e Approved Hfind0 HnextA)
    as (c1 & HbeginA & Hfind1 & _).
  set (eA := spread_update e Approved isoA
               (nullish (MutationParams.blockReason A)
                        (ContentRecord.blockReason e))) in Hfind1.
  assert (getNextStatus (ContentRecord.status eA) (MutationParams.action B)
          = Some Blocked) as HnextB by reflexivity.
  destruct (begin_legal_effect B oidB tB isoB c1 eA Blocked Hfind1 HnextB)
    as (c2 & HbeginB & Hfind2 & _).
  assert (getNextStatus (ContentRecord.status stored) (MutationParams.action B)
          = Some Blocked) as HnextS by (rewrite Hsrv; reflexivity).
  pose proof (updateRecord_resume_legal B dB store i stored Blocked
                HfB Hstored HnextS) as HsrvB.
  cbv zeta in HsrvB.
  exists c1, (Context.mk e oidA), c2, (Context.mk eA oidB).
  eexists. split_and!.
  - exact HbeginA.
  - exact HbeginB.
  - unfold MockApi.updateRecord, MockApi.updateRecord_resume.
    rewrite Hinit, HfA. reflexivity.
  - unfold MockApi.updateRecord. rewrite Hinit. exact HsrvB.
  - reflexivity.
  - rewrite !settle_queries.
    rewrite find_in_caches_setQueriesData
      by (intros r; apply restore_id; reflexivity).
    change E with (MutationParams.recordId B). rewrite Hfind2. simpl.
    unfold restore. rewrite bool_decide_eq_true_2 by reflexivity.
    reflexivity.
  - rewrite !settle_queries.
    rewrite find_in_caches_setQueriesData
      by (intros r; apply restore_id; reflexivity).
    change E with (MutationParams.recordId B). rewrite Hfind2. simpl.
    unfold restore. rewrite bool_decide_eq_true_2 by reflexivity.
    reflexivity.
Qed.

Lemma late_failure_overwrites_later_action_witness :
  let e := Sample.entity "E" InReview in
  ∃ c1 ctxA c2 ctxB committed,
    begin Sample.approveE "op1" 10 "2024-06-01T12:00:00.000Z"
          (Sample.client [e]) = (c1, inr ctxA)
    ∧ begin Sample.blockE "op2" 20 "2024-06-01T12:00:01.000Z" c1
      = (c2, inr ctxB)
    ∧ MockApi.updateRecord [] Sample.blockE (Sample.ok_draw 300) [e]
      = (<[0 := committed]> [e], inr committed)
    ∧ ContentRecord.status committed = Blocked
    ∧ find_in_caches "E"
        (Client.queries
           (settle Sample.blockE ctxB (inr committed)
              (settle Sample.approveE ctxA (inl Sample.networkError) c2)))
      = Some e.
Proof.
  intros e.
  destruct (late_failure_overwrites_later_action [] e (Sample.client [e]) [e]
              0 e "op1" "op2" 10 20 "2024-06-01T12:00:00.000Z"
              "2024-06-01T12:00:01.000Z"
              (MockApi.mkDraw 300 true "2024-06-01T12:00:00.000Z")
              (Sample.ok_draw 300) "policy"
              eq_refl eq_refl eq_refl eq_refl eq_refl eq_refl)
    as (c1 & ctxA & c2 & ctxB & committed & HA & HB & _ & HsB & Hst & Hc & _).
  exists c1, ctxA, c2, ctxB, committed.
  split_and!; [exact HA | exact HB | exact HsB | exact Hst | exact Hc].
Defined.

End RecordMutationMore.

(** ** More on the batch mutation *)

Section BatchMutationMore.
Import BatchMutation.





End BatchMutationMore.

(** ** The focus store *)

Section FocusFacts.
Import FocusStore.

Lemma nav_in_range totalRows n s :
  (1 ≤ totalRows)%Z →
  (0 ≤ focusedIndex s < totalRows)%Z →
  (0 ≤ focusedIndex (nav totalRows n s) < totalRows)%Z.
Proof.
  intros Hrows Hidx. destruct n as [[] | | | |]; simpl; unfold PAGE_SIZE; lia.
Qed.

(** X22: with at least one row and the focus on a row, every
    navigation call leaves the focus on a row, so the keyboard provider
    still finds a focused record; the drawer fields are not touched. *)
Theorem navigation_keeps_focus_on_a_row
    (records : list ContentRecord.t) n s :
  is_Some (getFocusedRecord records (focusedIndex s)) →
  let s' := nav (Z.of_nat (length records)) n s in
  (0 ≤ focusedIndex s' < Z.of_nat (length records))%Z
  ∧ is_Some (getFocusedRecord records (focusedIndex s'))
  ∧ isDrawerOpen s' = isDrawerOpen s
  ∧ drawerRecordId s' = drawerRecordId s
  ∧ shouldAnimateDrawer s' = shouldAnimateDrawer s.
Proof.
  intros Hfocus s'. unfold getFocusedRecord in Hfocus.
  destruct (bool_decide (0 ≤ focusedIndex s)%Z) eqn:H0; [| destruct Hfocus; discriminate].
  destruct (bool_decide (focusedIndex s < Z.of_nat (length records))%Z) eqn:H1;
    [| destruct Hfocus; discriminate].
  apply bool_decide_eq_true in H0, H1.
  assert (0 ≤ focusedIndex s' < Z.of_nat (length records))%Z as Hrange.
  { apply nav_in_range; lia. }
  split_and!.
  - lia.
  - lia.
  - unfold getFocusedRecord.
    rewrite !bool_decide_eq_true_2 by lia. simpl.
    apply lookup_lt_is_Some. lia.
  - subst s'. destruct n as [[] | | | |]; reflexivity.
  - subst s'. destruct n as [[] | | | |]; reflexivity.
  - subst s'. destruct n as [[] | | | |]; reflexivity.
Qed.

Lemma navigation_keeps_focus_on_a_row_witness :
  let records := [Sample.entity "E" Queued; Sample.entity "F" Queued] in
  is_Some (getFocusedRecord records
             (focusedIndex (nav 2 NavPageDown initial))).
Proof.
  intros records.
  apply (navigation_keeps_focus_on_a_row records NavPageDown initial).
  simpl. eexists. reflexivity.
Defined.

(** X23: with no rows, moving down or paging down puts the focus at
    -1, where no record is focused whatever the list holds later;
    [jumpToLast] guards against that, and one move up brings the focus
    back to the first row. *)
Theorem focus_on_empty_list (records : list ContentRecord.t) s :
  (0 ≤ focusedIndex s)%Z →
  focusedIndex (moveFocus down 0 s) = (-1)%Z
  ∧ focusedIndex (pageDown 0 s) = (-1)%Z
  ∧ focusedIndex (jumpToLast 0 s) = 0%Z
  ∧ getFocusedRecord records (focusedIndex (moveFocus down 0 s)) = None
  ∧ focusedIndex (moveFocus up (Z.of_nat (length records))
                            (moveFocus down 0 s)) = 0%Z.
Proof.
  intros Hidx. unfold moveFocus, pageDown, jumpToLast, setFocusedIndex.
  cbn [focusedIndex]. unfold PAGE_SIZE.
  assert (Z.min (focusedIndex s + 1) (0 - 1) = (-1)%Z) as -> by lia.
  assert (Z.min (0 - 1) (focusedIndex s + 20) = (-1)%Z) as -> by lia.
  split_and!; reflexivity.
Qed.

Lemma focus_on_empty_list_witness :
  focusedIndex (moveFocus down 0 initial) = (-1)%Z
  ∧ getFocusedRecord [Sample.entity "E" Queued]
      (focusedIndex (moveFocus down 0 initial)) = None.
Proof.
  destruct (focus_on_empty_list [Sample.entity "E" Queued] initial)
    as (Hdown & _ & _ & Hnone & _).
  - simpl. lia.
  - split; [exact Hdown | exact Hnone].
Defined.



End FocusFacts.

(** ** The selection store *)

Section SelectionFacts.
Import SelectionStore.
Implicit Types (s ids : list string) (id x : string) (st : SelectionStore.t).

Lemma elem_of_set_add x id s : x ∈ set_add id s ↔ x = id ∨ x ∈ s.
Proof.
  unfold set_add. case_bool_decide as Hin.
  - split; [auto |]. intros [-> | H]; assumption.
  - rewrite elem_of_app, list_elem_of_singleton. tauto.
Qed.

Lemma elem_of_set_delete x id s : x ∈ set_delete id s ↔ x ≠ id ∧ x ∈ s.
Proof. unfold set_delete. rewrite list_elem_of_filter. reflexivity. Qed.

Lemma NoDup_set_add id s : NoDup s → NoDup (set_add id s).
Proof.
  intros Hnd. unfold set_add. case_bool_decide as Hin; [exact Hnd |].
  apply NoDup_app. split_and!; [exact Hnd | | apply NoDup_singleton].
  intros y Hy Hy'. apply list_elem_of_singleton in Hy'. congruence.
Qed.

Lemma NoDup_set_delete id s : NoDup s → NoDup (set_delete id s).
Proof. intros Hnd. unfold set_delete. apply NoDup_filter, Hnd. Qed.

Lemma fold_add_NoDup (f : nat → option string) (idxs : list nat) s :
  NoDup s →
  NoDup (foldl (λ acc i, match f i with
                         | Some y => set_add y acc
                         | None => acc
                         end) s idxs).
Proof.
  revert s. induction idxs as [| i idxs IH]; intros s Hnd; simpl.
  - exact Hnd.
  - destruct (f i) as [y |]; apply IH; [apply NoDup_set_add |]; exact Hnd.
Qed.

Lemma fold_add_mem (f : nat → option string) (idxs : list nat) s x :
  x ∈ foldl (λ acc i, match f i with
                      | Some y => set_add y acc
                      | None => acc
                      end) s idxs
  ↔ x ∈ s ∨ ∃ i, i ∈ idxs ∧ f i = Some x.
Proof.
  revert s. induction idxs as [| i idxs IH]; intros s; simpl.
  - split; [auto |]. intros [H | (i & Hi & _)]; [exact H |].
    apply elem_of_nil in Hi. contradiction.
  - destruct (f i) as [y |] eqn:Hfi.
    + rewrite IH, elem_of_set_add. split.
      * intros [[-> | H] | (j & Hj & Hfj)].
        -- right. exists i. split; [left | exact Hfi].
        -- left. exact H.
        -- right. exists j. split; [right; exact Hj | exact Hfj].
      * intros [H | (j & Hj & Hfj)].
        -- left. right. exact H.
        -- apply elem_of_cons in Hj as [-> | Hj].
           ++ left. left. congruence.
           ++ right. exists j. split; assumption.
    + rewrite IH. split.
      * intros [H | (j & Hj & Hfj)]; [left; exact H |].
        right. exists j. split; [right; exact Hj | exact Hfj].
      * intros [H | (j & Hj & Hfj)]; [left; exact H |].
        apply elem_of_cons in Hj as [-> | Hj]; [congruence |].
        right. exists j. split; assumption.
Qed.

Lemma set_of_spec ids :
  NoDup (set_of ids) ∧ ∀ x, x ∈ set_of ids ↔ x ∈ ids.
Proof.
  unfold set_of.
  assert (∀ s, NoDup s →
            NoDup (foldl (λ s id, set_add id s) s ids)
            ∧ ∀ x, x ∈ foldl (λ s id, set_add id s) s ids ↔ x ∈ s ∨ x ∈ ids)
    as Hgen.
  { induction ids as [| id ids IH]; intros s Hnd; simpl.
    - split; [exact Hnd |]. intros x. rewrite elem_of_nil. tauto.
    - destruct (IH (set_add id s) (NoDup_set_add id s Hnd)) as [Hnd' Hmem].
      split; [exact Hnd' |]. intros x.
      rewrite Hmem, elem_of_set_add, elem_of_cons. tauto. }
  destruct (Hgen [] (NoDup_nil_2)) as [Hnd Hmem].
  split; [exact Hnd |]. intros x. rewrite Hmem, elem_of_nil. tauto.
Qed.

Lemma NoDup_call st c :
  NoDup (selectedIds st) → NoDup (selectedIds (call st c)).
Proof.
  intros Hnd. destruct c as [id | id | id | toId orderedIds | ids |]; simpl.
  - apply NoDup_set_add, Hnd.
  - apply NoDup_set_delete, Hnd.
  - case_bool_decide; [apply NoDup_set_delete | apply NoDup_set_add]; exact Hnd.
  - unfold selectRange.
    destruct (lastSelectedId st) as [fromId |];
      [| apply NoDup_set_add, Hnd].
    case_bool_decide; [apply NoDup_set_add, Hnd |].
    destruct (indexOf fromId orderedIds) as [a |]; [| exact Hnd].
    destruct (indexOf toId orderedIds) as [b |]; [| exact Hnd].
    case_bool_decide; simpl; apply (fold_add_NoDup (λ i, orderedIds !! i));
      exact Hnd.
  - apply set_of_spec.
  - apply NoDup_nil_2.
Qed.

(** X25: the ids [getSelectedIds] hands to a batch action are
    pairwise distinct after any sequence of calls, and
    [getSelectedCount] is their number; [selectAll] selects exactly the
    ids it is given, each once, and remembers the last of them. *)
Theorem selection_has_no_duplicates (cs : list Call) ids :
  NoDup (getSelectedIds (run cs))
  ∧ getSelectedCount (run cs) = length (getSelectedIds (run cs))
  ∧ NoDup (getSelectedIds (selectAll ids))
  ∧ (∀ x, isSelected x (selectAll ids) = true ↔ x ∈ ids)
  ∧ lastSelectedId (selectAll ids) = last ids.
Proof.
  split_and!.
  - unfold run, getSelectedIds.
    induction cs as [| c cs IH] using rev_ind; [apply NoDup_nil_2 |].
    rewrite foldl_app. simpl. apply NoDup_call, IH.
  - reflexivity.
  - apply set_of_spec.
  - intros x. unfold isSelected. rewrite bool_decide_eq_true.
    apply set_of_spec.
  - reflexivity.
Qed.

(** X26: [toggle] flips the membership of its id and of no other, so
    toggling an id twice selects what was selected before; it makes the
    id the anchor of the next range selection. *)
Theorem toggle_flips_one_id id st :
  isSelected id (toggle id st) = negb (isSelected id st)
  ∧ (∀ x, x ≠ id → isSelected x (toggle id st) = isSelected x st)
  ∧ (∀ x, isSelected x (toggle id (toggle id st)) = isSelected x st)
  ∧ lastSelectedId (toggle id st) = Some id.
Proof.
  assert (∀ st', isSelected id (toggle id st') = negb (isSelected id st'))
    as Hflip.
  { intros st'. unfold isSelected, toggle. simpl.
    destruct (decide (id ∈ selectedIds st')) as [Hin | Hin].
    - rewrite !(bool_decide_eq_true_2 _ Hin). simpl.
      apply bool_decide_eq_false. rewrite elem_of_set_delete. tauto.
    - rewrite !(bool_decide_eq_false_2 _ Hin). simpl.
      apply bool_decide_eq_true. rewrite elem_of_set_add. auto. }
  assert (∀ st' x, x ≠ id → isSelected x (toggle id st') = isSelected x st')
    as Hother.
  { intros st' x Hne. unfold isSelected, toggle. simpl.
    apply bool_decide_ext. case_bool_decide.
    - rewrite elem_of_set_delete. tauto.
    - rewrite elem_of_set_add. tauto. }
  split_and!; [apply Hflip | apply Hother | | reflexivity].
  intros x. destruct (decide (x = id)) as [-> | Hne].
  - rewrite !Hflip. apply negb_involutive.
  - rewrite !Hother by exact Hne. reflexivity.
Qed.

Lemma indexOf_Some x ids i :
  indexOf x ids = Some i → ids !! i = Some x.
Proof.
  unfold indexOf. destruct (list_find _ ids) as [[j y] |] eqn:Hfind;
    [| discriminate].
  intros [= <-]. apply list_find_Some in Hfind as (Hl & -> & _). exact Hl.
Qed.

Lemma indexOf_None x ids : indexOf x ids = None ↔ x ∉ ids.
Proof.
  unfold indexOf. split.
  - destruct (list_find _ ids) as [[j y] |] eqn:Hfind; [discriminate |].
    intros _ Hin. apply list_find_None in Hfind.
    rewrite Forall_forall in Hfind. exact (Hfind x Hin eq_refl).
  - intros Hnot. destruct (list_find _ ids) as [[j y] |] eqn:Hfind;
      [| reflexivity].
    apply list_find_Some in Hfind as (Hl & -> & _).
    exfalso. apply Hnot. apply list_elem_of_lookup. eauto.
Qed.

(** X27: a range selection with an anchor adds exactly the ids that
    lie between the anchor and the target in the displayed order, both
    included and whichever comes first, and makes the target the new
    anchor; when the anchor or the target is not displayed it changes
    nothing at all. *)
Theorem selectRange_selects_the_block toId orderedIds st fromId :
  lastSelectedId st = Some fromId →
  fromId ≠ "" →
  (fromId ∉ orderedIds ∨ toId ∉ orderedIds →
   selectRange toId orderedIds st = st)
  ∧ ∀ a b,
      indexOf fromId orderedIds = Some a →
      indexOf toId orderedIds = Some b →
      lastSelectedId (selectRange toId orderedIds st) = Some toId
      ∧ ∀ x,
          isSelected x (selectRange toId orderedIds st) = true
          ↔ isSelected x st = true
            ∨ ∃ k, a `min` b ≤ k ≤ a `max` b ∧ orderedIds !! k = Some x.
Proof.
  intros Hlast Hfrom. split.
  - intros Hmissing. unfold selectRange. rewrite Hlast.
    rewrite bool_decide_eq_false_2 by exact Hfrom.
    destruct Hmissing as [Hm | Hm]; apply indexOf_None in Hm; rewrite Hm.
    + reflexivity.
    + destruct (indexOf fromId orderedIds); reflexivity.
  - intros a b Ha Hb. unfold selectRange. rewrite Hlast.
    rewrite bool_decide_eq_false_2 by exact Hfrom. rewrite Ha, Hb.
    assert (∀ lo hi x,
              x ∈ foldl (λ s i, match orderedIds !! i with
                                | Some y => set_add y s
                                | None => s
                                end) (selectedIds st) (seq lo (S hi - lo))
              ↔ x ∈ selectedIds st
                ∨ ∃ k, k ∈ seq lo (S hi - lo) ∧ orderedIds !! k = Some x)
      as Hmem.
    { intros lo hi x. apply (fold_add_mem (λ i, orderedIds !! i)). }
    case_bool_decide as Hlt; simpl; (split; [reflexivity |]); intros x;
      unfold isSelected; simpl; rewrite !bool_decide_eq_true, Hmem;
      apply or_iff_compat_l; split; intros (k & Hk & Hx); exists k;
      (split; [| exact Hx]); rewrite ?elem_of_seq in *; lia.
Qed.

Lemma selectRange_selects_the_block_witness :
  let st := select "b" initial in
  isSelected "c" (selectRange "d" ["a"; "b"; "c"; "d"; "e"] st) = true
  ↔ isSelected "c" st = true
    ∨ ∃ k, 1 `min` 3 ≤ k ≤ 1 `max` 3
           ∧ ["a"; "b"; "c"; "d"; "e"] !! k = Some "c".
Proof.
  intros st.
  destruct (selectRange_selects_the_block "d" ["a"; "b"; "c"; "d"; "e"] st "b"
              eq_refl ltac:(discriminate)) as [_ Hblock].
  destruct (Hblock 1 3 eq_refl eq_refl) as [_ Hmem].
  exact (Hmem "c").
Defined.

End SelectionFacts.

(** ** Theme and filter dropdowns *)

Section UIFacts.
Import UIStore.

Lemma classList_theme th cl :
  let cl' := classList_add (Theme_str th)
               (classList_remove ["dark"; "light"] cl) in
  cl' = filter (λ c, c ∉ ["dark"; "light"]) cl ++ [Theme_str th].
Proof.
  unfold classList_add, classList_remove. simpl.
  rewrite bool_decide_eq_false_2; [reflexivity |].
  rewrite list_elem_of_filter. intros [Hnot _]. apply Hnot.
  destruct th; simpl; [left | right; left].
Qed.

(** X28: after [toggleTheme] or [setTheme] the document element
    carries the class of the store's theme and not the other one,
    whatever classes it had, and its other classes are kept in order;
    toggling twice gives back the theme. *)
Theorem theme_class_follows_store th s cl :
  let other := match th with dark => light | light => dark end in
  let res := setTheme th s cl in
  theme res.1 = th
  ∧ res.2 = filter (λ c, c ∉ ["dark"; "light"]) cl ++ [Theme_str th]
  ∧ Theme_str th ∈ snd res
  ∧ ¬ (Theme_str other ∈ snd res)
  ∧ snd (toggleTheme s cl)
    = filter (λ c, c ∉ ["dark"; "light"]) cl
      ++ [Theme_str (theme (fst (toggleTheme s cl)))]
  ∧ theme (fst (toggleTheme (fst (toggleTheme s cl)) (snd (toggleTheme s cl))))
    = theme s.
Proof.
  intros other res. subst res. unfold setTheme, toggleTheme. cbn [fst snd].
  rewrite !classList_theme. split_and!.
  - reflexivity.
  - reflexivity.
  - apply elem_of_app. right. left.
  - rewrite elem_of_app, list_elem_of_filter, list_elem_of_singleton.
    intros [[Hnot _] | Heq].
    + apply Hnot. subst other. destruct th; simpl; [right; left | left].
    + subst other. destruct th; discriminate.
  - reflexivity.
  - simpl. destruct (theme s); reflexivity.
Qed.

End UIFacts.

Section FilterBarFacts.
Context `{EqDecision T}.
Implicit Types (option o : T) (selected : list T).

(** X29: [toggleOption] flips the membership of the option in the
    selection and of nothing else, and never makes an option appear
    twice; toggling an unselected option twice gives back the selection
    as it was. *)
Theorem toggleOption_flips_one_option option selected :
  (option ∈ toggleOption option selected ↔ option ∉ selected)
  ∧ (∀ o, o ≠ option → o ∈ toggleOption option selected ↔ o ∈ selected)
  ∧ (NoDup selected → NoDup (toggleOption option selected))
  ∧ (option ∉ selected →
     toggleOption option (toggleOption option selected) = selected).
Proof.
  unfold toggleOption. split_and!.
  - case_bool_decide as Hin.
    + rewrite list_elem_of_filter. tauto.
    + rewrite elem_of_app, list_elem_of_singleton. tauto.
  - intros o Hne. case_bool_decide.
    + rewrite list_elem_of_filter. tauto.
    + rewrite elem_of_app, list_elem_of_singleton. tauto.
  - intros Hnd. case_bool_decide as Hin.
    + apply NoDup_filter, Hnd.
    + apply NoDup_app. split_and!; [exact Hnd | | apply NoDup_singleton].
      intros y Hy Hy'. apply list_elem_of_singleton in Hy'. congruence.
  - intros Hnot. rewrite (bool_decide_eq_false_2 _ Hnot).
    rewrite bool_decide_eq_true_2
      by (apply elem_of_app; right; left).
    rewrite filter_app, filter_cons_False, filter_nil, app_nil_r
      by (intros Hk; apply Hk; reflexivity).
    apply filter_all_keep. intros y Hy ->. contradiction.
Qed.

End FilterBarFacts.

(** ** Actions issued from the keyboard *)

Section KeyboardFacts.
Import RecordMutation.

Lemma isValidAction_Some s a :
  isValidAction s a = true → ∃ next, getNextStatus s a = Some next.
Proof.
  unfold isValidAction. rewrite bool_decide_eq_true.
  destruct (getNextStatus s a) as [next |]; [eauto | done].
Qed.

(** X30: an action key pressed on the focused record, when that record
    is the cached one, starts a mutation that does not throw: the
    action is legal for the record's status, a reason is passed exactly
    for [block], and the reason written optimistically is the one the
    backing call commits. *)
Theorem keyboard_actions_are_legal key r answer v oid nowMs nowIso c :
  keyAction key (Some r) answer = Some v →
  find_in_caches (ContentRecord.id r) (Client.queries c) = Some r →
  ∃ c1 next,
    begin v oid nowMs nowIso c = (c1, inr (Context.mk r oid))
    ∧ getNextStatus (ContentRecord.status r) (MutationParams.action v)
      = Some next
    ∧ (is_Some (MutationParams.blockReason v)
       ↔ MutationParams.action v = block)
    ∧ ContentRecord.blockReason <$>
        find_in_caches (ContentRecord.id r) (Client.queries c1)
      = Some (if bool_decide (MutationParams.action v = block)
              then MutationParams.blockReason v
              else ContentRecord.blockReason r).
Proof.
  intros Hkey Hfind.
  assert (MutationParams.recordId v = ContentRecord.id r
          ∧ isValidAction (ContentRecord.status r) (MutationParams.action v)
            = true
          ∧ (is_Some (MutationParams.blockReason v)
             ↔ MutationParams.action v = block)) as (Hrid & Hvalid & Hreason).
  { unfold keyAction in Hkey.
    repeat (case_bool_decide;
            [ destruct (isValidAction _ _) eqn:Hv; [| discriminate Hkey] |]);
      try discriminate Hkey.
    - injection Hkey as <-. simpl. split_and!; [done | exact Hv |].
      split; [intros [? [=]] | discriminate].
    - injection Hkey as <-. simpl. split_and!; [done | exact Hv |].
      split; [intros [? [=]] | discriminate].
    - injection Hkey as <-. simpl. split_and!; [done | exact Hv |].
      split; [intros [? [=]] | discriminate].
    - destruct answer as [reason |]; [| discriminate Hkey].
      case_bool_decide; [| discriminate Hkey].
      injection Hkey as <-. simpl. split_and!; [done | exact Hv |].
      split; [reflexivity | eauto]. }
  destruct (isValidAction_Some _ _ Hvalid) as [next Hnext].
  rewrite <- Hrid in Hfind.
  destruct (begin_legal_effect v oid nowMs nowIso c r next Hfind Hnext)
    as (c1 & Hbegin & Hfind1 & _).
  exists c1, next. rewrite <- Hrid.
  split_and!; [exact Hbegin | exact Hnext | exact Hreason |].
  rewrite Hfind1. simpl. f_equal. case_bool_decide as Hblock.
  - apply Hreason in Hblock as [reason ->]. reflexivity.
  - destruct (MutationParams.blockReason v) as [reason |] eqn:Hr;
      [| reflexivity].
    exfalso. apply Hblock, Hreason. eauto.
Qed.

Lemma keyboard_actions_are_legal_witness :
  ∃ c1 next,
    begin (MutationParams.mk "E" block (Some "policy")) "op1" 10
          "2024-06-01T12:00:00.000Z" (Sample.client [Sample.entity "E" Approved])
    = (c1, inr (Context.mk (Sample.entity "E" Approved) "op1"))
    ∧ getNextStatus Approved block = Some next.
Proof.
  destruct (keyboard_actions_are_legal "b" (Sample.entity "E" Approved)
              (Some "policy") (MutationParams.mk "E" block (Some "policy"))
              "op1" 10 "2024-06-01T12:00:00.000Z"
              (Sample.client [Sample.entity "E" Approved]) eq_refl eq_refl)
    as (c1 & next & Hbegin & Hnext & _).
  exists c1, next. split; [exact Hbegin | exact Hnext].
Defined.

End KeyboardFacts.

